(** * TableFacadeInitializer: the asynchronous initialization protocol

    Shallow embedding of
    [libs/sdk-ui-pivot/src/impl/tableFacadeInitializer.ts].

    The class drives a two step promise chain ([execute], then [readWindow])
    and reports through the callbacks of a [TableConfig]; its owner may call
    [abandon] while the chain is suspended.  The embedding has three layers:

    - [Promise]: the syntax of a promise chain, with [then_] and [catch_]
      following [Promise.prototype.then] and [Promise.prototype.catch];
    - [initialize] and [abandon]: the two public members of the class,
      written over that syntax;
    - [run] and [session]: an interpreter that plays a chain against a
      backend (how the two promises settle) and a schedule (where the owner
      calls [abandon]), and logs every call that crosses the boundary of the
      class.

    What the embedding takes for granted: a callback, once called, returns
    normally and does not call back into the instance; the imported helper
    functions are total; handlers run to completion, so the owner's code runs
    only while the chain is suspended on a backend promise, before
    [initialize] is called, or after the chain has settled. *)

From Stdlib Require Import List Bool String.
From Stdlib Require Import Ascii Arith ZArith Lia.
From ExtLib Require Import Structures.Monad Structures.MonadExc.
Import ListNotations.
Import MonadNotation.
Local Open Scope monad_scope.
Local Open Scope string_scope.
Local Open Scope list_scope.

Set Implicit Arguments.

(** ** Collaborators that live outside the class *)

(** The opaque objects that the initializer only passes around. *)
Class Domain : Type := {
  IPreparedExecution : Type;     (* the execution handle *)
  IExecutionResult : Type;       (* what [execute] resolves with *)
  IDataView : Type;              (* what [readWindow] resolves with *)
  TableConfig : Type;            (* the object holding the config callbacks *)
  PushDataHandler : Type;        (* the function stored in [props.pushData] *)
  DataViewFacade : Type;
  IAvailableDrillTargets : Type;
  GoodDataSdkError : Type;       (* what [convertError] returns *)
  IExportFunction : Type         (* what [createExportFunction] returns *)
}.

Section Model.

Context {D : Domain}.

(** [ICorePivotTableProps]: the three properties the initializer reads.  All
    three are optional in the component's props; the source reads [pageSize]
    and [pushData] through a non-null assertion, which is erased at run time. *)
Record ICorePivotTableProps : Type := {
  pageSize : option nat;
  exportTitle : option string;
  pushData : option PushDataHandler
}.

(** Modelled from the spec: the class [TableFacade] is not part of the source
    at hand; the spec describes the facade as wrapping the execution result,
    the data view, the configuration and the props, which are the arguments of
    [new TableFacade(result, dataView, this.config, this.props)]. *)
Record TableFacade : Type := {
  tf_result : IExecutionResult;
  tf_dataView : IDataView;
  tf_config : TableConfig;
  tf_props : ICorePivotTableProps
}.

(** The argument of [pushData]: [{ dataView, availableDrillTargets }] on the
    success path, [{ availableDrillTargets }] on the two error paths. *)
Record IPushData : Type := {
  dataView : option IDataView;
  availableDrillTargets : IAvailableDrillTargets
}.

(** Modelled from the spec: the error classes and the classifiers
    [isNoDataError] and [isUnexpectedResponseError] of the backend SPI are not
    part of the source at hand.  The spec gives the taxonomy
    {no-data, unexpected-response, other}, a no-data error optionally carrying
    a data view.  [TypeError] is the error JavaScript itself raises when a
    value that is not a function is called. *)
Inductive JsError : Type :=
| NoDataError (attached : option IDataView)
| UnexpectedResponseError
| OtherError (message : string)
| TypeError (message : string).

Definition isNoDataError (error : JsError) : bool :=
  match error with NoDataError _ => true | _ => false end.

Definition isUnexpectedResponseError (error : JsError) : bool :=
  match error with UnexpectedResponseError => true | _ => false end.

(** [error.dataView] *)
Definition error_dataView (error : JsError) : option IDataView :=
  match error with NoDataError attached => attached | _ => None end.

(** The imported functions and the constant the initializer uses; they are
    parameters of the development. *)
Class Collaborators : Type := {
  COLS_PER_PAGE : nat;
  convertError : JsError -> GoodDataSdkError;
  getAvailableDrillTargets : DataViewFacade -> IAvailableDrillTargets;
  getAvailableDrillTargetsFromExecutionResult :
    IExecutionResult -> IAvailableDrillTargets;
  DataViewFacade_for : IDataView -> DataViewFacade;
  (* the two methods of [TableFacade] that the initializer calls *)
  createExportFunction : TableFacade -> option string -> IExportFunction;
  table_getAvailableDrillTargets : TableFacade -> IAvailableDrillTargets
}.

Context {C : Collaborators}.

(** ** Observable events *)

(** How a promise settles. *)
Inductive Settled (A : Type) : Type :=
| Fulfilled (value : A)
| Rejected (reason : JsError).

Arguments Rejected {A} reason.

(** Every call that crosses the boundary of the class. *)
Inductive Event : Type :=
(* callbacks of [config] *)
| config_onLoadingChanged (isLoading : bool)
| config_onExportReady (fn : IExportFunction)
| config_pushData (data : IPushData)
| config_onError (error : GoodDataSdkError) (execution : IPreparedExecution)
(* the callback read from [this.props] *)
| props_pushData (handler : PushDataHandler) (data : IPushData)
(* the backend *)
| execute_called (execution : IPreparedExecution)
| execute_settled (outcome : Settled IExecutionResult)
| readWindow_called (result : IExecutionResult)
                    (offset : nat * nat) (size : option nat * nat)
| readWindow_settled (outcome : Settled IDataView)
(* the owner calling [abandon]; [accepted] is false when the call threw *)
| owner_abandon (accepted : bool).

Definition is_config_callback (ev : Event) : bool :=
  match ev with
  | config_onLoadingChanged _ | config_onExportReady _
  | config_pushData _ | config_onError _ _ => true
  | _ => false
  end.

Definition is_callback (ev : Event) : bool :=
  match ev with
  | props_pushData _ _ => true
  | _ => is_config_callback ev
  end.

Definition is_backend_call (ev : Event) : bool :=
  match ev with
  | execute_called _ | readWindow_called _ _ _ => true
  | _ => false
  end.

Definition is_onError (ev : Event) : bool :=
  match ev with config_onError _ _ => true | _ => false end.

Definition is_config_pushData (ev : Event) : bool :=
  match ev with config_pushData _ => true | _ => false end.

Definition is_pushData (ev : Event) : bool :=
  match ev with config_pushData _ | props_pushData _ _ => true | _ => false end.

Definition is_onExportReady (ev : Event) : bool :=
  match ev with config_onExportReady _ => true | _ => false end.

Definition is_execute_called (ev : Event) : bool :=
  match ev with execute_called _ => true | _ => false end.

Definition is_readWindow_called (ev : Event) : bool :=
  match ev with readWindow_called _ _ _ => true | _ => false end.

(** ** Promise chains *)

(** A chain is synchronous code (callback calls, reads of [this.abandoned])
    up to the next suspension on a backend promise, whose continuation
    receives the way that promise settled. *)
Inductive Promise (A : Type) : Type :=
| Resolve (value : A)
| Reject (reason : JsError)
| Call (ev : Event) (k : Promise A)
| ReadAbandoned (k : bool -> Promise A)
| AwaitExecute (execution : IPreparedExecution)
               (k : Settled IExecutionResult -> Promise A)
| AwaitReadWindow (result : IExecutionResult)
                  (offset : nat * nat) (size : option nat * nat)
                  (k : Settled IDataView -> Promise A).

Arguments Reject {A} reason.

(** [p.then(f)] *)
Fixpoint then_ {A B : Type} (p : Promise A) (f : A -> Promise B) : Promise B :=
  match p with
  | Resolve a => f a
  | Reject e => Reject e
  | Call ev k => Call ev (then_ k f)
  | ReadAbandoned k => ReadAbandoned (fun b => then_ (k b) f)
  | AwaitExecute x k => AwaitExecute x (fun s => then_ (k s) f)
  | AwaitReadWindow r o n k => AwaitReadWindow r o n (fun s => then_ (k s) f)
  end.

(** [p.catch(g)] *)
Fixpoint catch_ {A : Type} (p : Promise A) (g : JsError -> Promise A) : Promise A :=
  match p with
  | Resolve a => Resolve a
  | Reject e => g e
  | Call ev k => Call ev (catch_ k g)
  | ReadAbandoned k => ReadAbandoned (fun b => catch_ (k b) g)
  | AwaitExecute x k => AwaitExecute x (fun s => catch_ (k s) g)
  | AwaitReadWindow r o n k => AwaitReadWindow r o n (fun s => catch_ (k s) g)
  end.

#[local] Instance Monad_Promise : Monad Promise := {
  ret := fun A (a : A) => Resolve a;
  bind := fun A B (p : Promise A) (f : A -> Promise B) => then_ p f
}.

#[local] Instance Exc_Promise : MonadExc JsError Promise := {
  raise := fun A (e : JsError) => Reject e;
  catch := fun A (p : Promise A) (g : JsError -> Promise A) => catch_ p g
}.

Definition settle {A : Type} (s : Settled A) : Promise A :=
  match s with
  | Fulfilled a => Resolve a
  | Rejected e => Reject e
  end.

(** A synchronous call of a callback. *)
Definition call (ev : Event) : Promise unit := Call ev (Resolve tt).

(** [this.abandoned], read by a handler. *)
Definition this_abandoned : Promise bool := ReadAbandoned (fun b => Resolve b).

(** [execution.execute()] *)
Definition execute (execution : IPreparedExecution) : Promise IExecutionResult :=
  AwaitExecute execution settle.

(** [result.readWindow(offset, size)] *)
Definition readWindow (result : IExecutionResult)
    (offset : nat * nat) (size : option nat * nat) : Promise IDataView :=
  AwaitReadWindow result offset size settle.

(** JavaScript's [undefined] as the value of a [TableFacade | undefined]. *)
Definition undefined : option TableFacade := None.

(** ** The class *)

(** The fields of a [TableFacadeInitializer]: three read-only constructor
    arguments and the mutable flag, initially false. *)
Record TableFacadeInitializer : Type := {
  execution : IPreparedExecution;
  config : TableConfig;
  props : ICorePivotTableProps;
  abandoned : bool
}.

Definition new_TableFacadeInitializer (execution : IPreparedExecution)
    (config : TableConfig) (props : ICorePivotTableProps) : TableFacadeInitializer :=
  {| execution := execution; config := config; props := props;
     abandoned := false |}.

(** What [invariant] of ts-invariant throws. *)
Inductive InvariantError : Type := Invariant_Violation.

(** [invariant(condition)] *)
Definition invariant (condition : bool) : InvariantError + unit :=
  if condition then inr tt else inl Invariant_Violation.

(** [abandon]: the assertion, then the assignment. *)
Definition abandon (this : TableFacadeInitializer)
  : InvariantError + TableFacadeInitializer :=
  match invariant (negb (abandoned this)) with
  | inl thrown => inl thrown
  | inr _ =>
      inr {| execution := execution this; config := config this;
             props := props this; abandoned := true |}
  end.

(** [this.props.pushData!(data)]: the assertion is erased, so the call raises
    a [TypeError] when the property is absent. *)
Definition this_props_pushData (this : TableFacadeInitializer) (data : IPushData)
  : Promise unit :=
  match pushData (props this) with
  | Some handler => call (props_pushData handler data)
  | None => raise (TypeError "this.props.pushData is not a function")
  end.

Definition createTableFacade (this : TableFacadeInitializer)
    (result : IExecutionResult) (dataView : IDataView) : TableFacade :=
  {| tf_result := result; tf_dataView := dataView;
     tf_config := config this; tf_props := props this |}.

(** [initialize].  The fields [execution], [config] and [props] never change,
    so they are read from [this]; the flag is read through [this_abandoned]
    at the moment a handler runs. *)
Definition initialize (this : TableFacadeInitializer) : Promise (option TableFacade) :=
  call (config_onLoadingChanged true) ;;
  catch
    (result <- execute (execution this) ;;
     catch
       (dataView <- readWindow result (0, 0) (pageSize (props this), COLS_PER_PAGE) ;;
        abandoned <- this_abandoned ;;
        if abandoned : bool then ret undefined
        else
          let table := createTableFacade this result dataView in
          call (config_onLoadingChanged false) ;;
          call (config_onExportReady
                  (createExportFunction table (exportTitle (props this)))) ;;
          let availableDrillTargets := table_getAvailableDrillTargets table in
          call (config_pushData
                  {| dataView := Some dataView;
                     availableDrillTargets := availableDrillTargets |}) ;;
          ret (Some table))
       (fun error =>
          abandoned <- this_abandoned ;;
          if abandoned : bool then ret undefined
          else
            (if isUnexpectedResponseError error then
               let availableDrillTargets :=
                 getAvailableDrillTargetsFromExecutionResult result in
               this_props_pushData this
                 {| dataView := None;
                    availableDrillTargets := availableDrillTargets |}
             else ret tt) ;;
            match (if isNoDataError error then error_dataView error else None) with
            | Some attached =>
                let availableDrillTargets :=
                  getAvailableDrillTargets (DataViewFacade_for attached) in
                call (config_pushData
                        {| dataView := None;
                           availableDrillTargets := availableDrillTargets |}) ;;
                call (config_onLoadingChanged false)
            | None => ret tt
            end ;;
            call (config_onError (convertError error) (execution this)) ;;
            ret undefined))
    (fun error =>
       abandoned <- this_abandoned ;;
       if abandoned : bool then ret undefined
       else
         call (config_onError (convertError error) (execution this)) ;;
         ret undefined).

(** ** Playing a chain *)

(** How the two backend promises settle. *)
Record Backend : Type := {
  be_execute : IPreparedExecution -> Settled IExecutionResult;
  be_readWindow : IExecutionResult -> nat * nat -> option nat * nat ->
                  Settled IDataView
}.

(** A log entry: the event and the value of the flag when it happened. *)
Record Entry : Type := {
  flag : bool;
  event : Event
}.

Record World : Type := {
  this : TableFacadeInitializer;
  log : list Entry
}.

Definition record (ev : Event) (w : World) : World :=
  {| this := this w;
     log := log w ++ [{| flag := abandoned (this w); event := ev |}] |}.

(** The owner calls [abandon] (or does not) while the initializer is not
    running; a call that throws leaves the instance as it was. *)
Definition owner (calls_abandon : bool) (w : World) : World :=
  if calls_abandon then
    match abandon (this w) with
    | inr this' => {| this := this'; log := log (record (owner_abandon true) w) |}
    | inl _ => record (owner_abandon false) w
    end
  else w.

(** Handlers run to completion; the owner gets its turn only while the chain
    is suspended on a backend promise.  [turns] says, for each suspension in
    order, whether the owner calls [abandon] during it. *)
Fixpoint run {A : Type} (be : Backend) (p : Promise A) (turns : list bool)
    (w : World) : Settled A * World :=
  match p with
  | Resolve a => (Fulfilled a, w)
  | Reject e => (Rejected e, w)
  | Call ev k => run be k turns (record ev w)
  | ReadAbandoned k => run be (k (abandoned (this w))) turns w
  | AwaitExecute x k =>
      let outcome := be_execute be x in
      let w1 := owner (hd false turns) (record (execute_called x) w) in
      run be (k outcome) (tl turns) (record (execute_settled outcome) w1)
  | AwaitReadWindow r o n k =>
      let outcome := be_readWindow be r o n in
      let w1 := owner (hd false turns) (record (readWindow_called r o n) w) in
      run be (k outcome) (tl turns) (record (readWindow_settled outcome) w1)
  end.

(** Where the owner calls [abandon] around one [initialize] call. *)
Record Schedule : Type := {
  before_initialize : bool;
  while_executing : bool;
  while_reading : bool;
  after_settled : bool
}.

Definition never : Schedule :=
  {| before_initialize := false; while_executing := false;
     while_reading := false; after_settled := false |}.

(** One life of an instance: construction, one [initialize] call, and the
    owner's [abandon] calls around and during it. *)
Definition session (be : Backend) (s : Schedule)
    (execution : IPreparedExecution) (config : TableConfig)
    (props : ICorePivotTableProps)
  : Settled (option TableFacade) * World :=
  let w0 := owner (before_initialize s)
              {| this := new_TableFacadeInitializer execution config props;
                 log := [] |} in
  let (outcome, w1) :=
    run be (initialize (this w0)) [while_executing s; while_reading s] w0 in
  (outcome, owner (after_settled s) w1).

(** The flag as the handlers of the chain find it: [execute]'s rejection
    handler runs after the first suspension, the handlers of [readWindow]
    after the second. *)
Definition abandoned_when_execute_settles (s : Schedule) : bool :=
  before_initialize s || while_executing s.

Definition abandoned_when_readWindow_settles (s : Schedule) : bool :=
  before_initialize s || while_executing s || while_reading s.

(** ** Views of a log *)

Definition events (l : list Entry) : list Event := map event l.

Definition callbacks (l : list Entry) : list Event :=
  filter is_callback (events l).

Definition backend_calls (l : list Entry) : list Event :=
  filter is_backend_call (events l).

Definition count (p : Event -> bool) (l : list Entry) : nat :=
  List.length (filter p (events l)).

(** The callbacks invoked while the flag was set. *)
Definition callbacks_while_abandoned (l : list Entry) : list Event :=
  events (filter (fun e => flag e && is_callback (event e)) l).

Definition is_settled (ev : Event) : bool :=
  match ev with
  | execute_settled _ | readWindow_settled _ => true
  | _ => false
  end.

(** The events that follow the last settlement of a backend promise. *)
Fixpoint since_last_settled (acc : list Event) (l : list Event) : list Event :=
  match l with
  | [] => acc
  | ev :: l' =>
      if is_settled ev then since_last_settled [] l'
      else since_last_settled (acc ++ [ev]) l'
  end.

(** The callbacks invoked by the handler that ran last, that is, after the
    last backend promise settled. *)
Definition callbacks_after_settlement (l : list Entry) : list Event :=
  filter is_callback (since_last_settled [] (events l)).

(** The flags of a log never go back from set to clear. *)
Fixpoint flag_never_cleared (l : list Entry) : bool :=
  match l with
  | [] => true
  | e :: l' => (if flag e then forallb flag l' else true) && flag_never_cleared l'
  end.

Definition is_accepted_abandon (ev : Event) : bool :=
  match ev with owner_abandon true => true | _ => false end.

(** ** Terminal outcomes of a session *)

(** The no-result value of an abandoned initialization; the handlers of
    [initialize] return [undefined] for it. *)
Definition NONE : option TableFacade := undefined.

Definition resolves_with_facade (r : Settled (option TableFacade) * World) : Prop :=
  exists table, fst r = Fulfilled (Some table)
                /\ count is_onError (log (snd r)) = 0.

Definition resolves_undefined_after_error
    (r : Settled (option TableFacade) * World) : Prop :=
  fst r = Fulfilled undefined /\ count is_onError (log (snd r)) = 1.

Definition resolves_NONE_after_abandon
    (r : Settled (option TableFacade) * World) : Prop :=
  fst r = Fulfilled NONE
  /\ count is_onError (log (snd r)) = 0
  /\ abandoned (this (snd r)) = true.

(** The flag as the handler that decides the resolved value finds it. *)
Definition abandoned_when_last_handler_runs (be : Backend) (s : Schedule)
    (e : IPreparedExecution) : bool :=
  match be_execute be e with
  | Fulfilled _ => abandoned_when_readWindow_settles s
  | Rejected _ => abandoned_when_execute_settles s
  end.

(** One of the two backend promises of the session rejects. *)
Definition a_step_rejects (be : Backend) (e : IPreparedExecution)
    (p : ICorePivotTableProps) : bool :=
  match be_execute be e with
  | Fulfilled result =>
      match be_readWindow be result (0, 0) (pageSize p, COLS_PER_PAGE) with
      | Fulfilled _ => false
      | Rejected _ => true
      end
  | Rejected _ => true
  end.

End Model.

Arguments Rejected {D A} reason.
Arguments Reject {D A} reason.

(** ** A concrete instance, for running the model *)

Module Sample.

(** Every opaque object is a number; drill targets, converted errors and
    export functions are tagged so that their origin stays visible. *)
Definition domain : Domain :=
  {| IPreparedExecution := nat;
     IExecutionResult := nat;
     IDataView := nat;
     TableConfig := nat;
     PushDataHandler := nat;
     DataViewFacade := nat;
     IAvailableDrillTargets := string * nat;
     GoodDataSdkError := string;
     IExportFunction := nat * option string |}.

#[local] Existing Instance domain.

Definition collaborators : @Collaborators domain :=
  {| COLS_PER_PAGE := 1000;
     convertError :=
       fun e : @JsError domain =>
         match e with
         | NoDataError _ => "NO_DATA"
         | UnexpectedResponseError => "UNEXPECTED_HTTP"
         | OtherError message => message
         | TypeError message => message
         end;
     getAvailableDrillTargets := fun f : nat => ("view", f);
     getAvailableDrillTargetsFromExecutionResult := fun r : nat => ("result", r);
     DataViewFacade_for := fun v : nat => v;
     createExportFunction :=
       fun (t : @TableFacade domain) (title : option string) => (tf_dataView t, title);
     table_getAvailableDrillTargets :=
       fun t : @TableFacade domain => ("table", tf_dataView t) |}.

Definition the_execution : IPreparedExecution := 1.
Definition the_config : TableConfig := 2.
Definition the_result : IExecutionResult := 3.
Definition the_view : IDataView := 4.
Definition the_handler : PushDataHandler := 5.

Definition props_with_pushData : @ICorePivotTableProps domain :=
  {| pageSize := Some 100; exportTitle := Some "report";
     pushData := Some the_handler |}.

Definition props_without_pushData : @ICorePivotTableProps domain :=
  {| pageSize := Some 100; exportTitle := Some "report"; pushData := None |}.

(** A backend whose [execute] resolves and whose [readWindow] settles as given. *)
Definition backend_reading (read : Settled IDataView) : Backend :=
  {| be_execute := fun _ => Fulfilled the_result;
     be_readWindow := fun _ _ _ => read |}.

(** A backend whose [execute] rejects. *)
Definition backend_failing (reason : JsError) : Backend :=
  {| be_execute := fun _ => Rejected reason;
     be_readWindow := fun _ _ _ => Fulfilled the_view |}.

Definition abandon_at_once : Schedule :=
  {| before_initialize := true; while_executing := false;
     while_reading := false; after_settled := false |}.

Definition abandon_while_executing : Schedule :=
  {| before_initialize := false; while_executing := true;
     while_reading := false; after_settled := false |}.

Definition abandon_while_reading : Schedule :=
  {| before_initialize := false; while_executing := false;
     while_reading := true; after_settled := false |}.

End Sample.

(** ** Further views of a session *)

Section MoreViews.

Context {D : Domain} {C : Collaborators}.

(** [onLoadingChanged] called with [{ isLoading: b }]. *)
Definition is_onLoadingChanged (b : bool) (ev : Event) : bool :=
  match ev with
  | config_onLoadingChanged b' => Bool.eqb b b'
  | _ => false
  end.

(** The read of the session rejects with a no-data error that carries a data
    view. *)
Definition read_rejects_with_view (be : Backend) (e : IPreparedExecution)
    (p : ICorePivotTableProps) : bool :=
  match be_execute be e with
  | Fulfilled result =>
      match be_readWindow be result (0, 0) (pageSize p, COLS_PER_PAGE) with
      | Rejected (NoDataError (Some _)) => true
      | _ => false
      end
  | Rejected _ => false
  end.

(** The simplest schedule under which the last handler finds the given flag. *)
Definition plain_schedule (flag_at_last_handler : bool) : Schedule :=
  {| before_initialize := false; while_executing := flag_at_last_handler;
     while_reading := false; after_settled := false |}.

End MoreViews.

(** * Other components of the repository *)

(** ** DashboardTester: the test harness around the dashboard store *)

(** The object [monitoredActions] is a plain object used as a map from
    action types, so a read of it also finds what [Object.prototype] hands
    down.  The timeout that [waitFor] races against is real time and not
    modelled: [waitFor] stands for the value it races against the timeout. *)
Module DashboardTester.

Section Tester.

Variable Payload : Type.

(** The names under which a plain object such as [{}] inherits a property
    from [Object.prototype] ("constructor", "toString", "__proto__", ...).
    Each inherited value is truthy and is no monitored action: it has no
    [promise] and no [resolve]. *)
Variable inherited : string -> bool.

(** [PayloadAction<any>]: only the [type] is inspected. *)
Record PayloadAction : Type := {
  type : string;
  payload : Payload
}.

(** [MonitoredAction].  The fields [resolve] and [reject] are the two
    functions of [promise] taken out of its executor, so the promise
    identifies them; promises are named by their index of creation. *)
Record MonitoredAction : Type := {
  calls : nat;
  promise : nat
}.

(** The two private fields of a [DashboardTester], and the promises created
    so far: pending ([None]) or fulfilled with an action.  [reject] is never
    called, so a monitored promise has no third state. *)
Record Tester : Type := {
  monitoredActions : list (string * MonitoredAction);
  capturedActions : list PayloadAction;
  promises : list (option PayloadAction)
}.

Definition new_DashboardTester : Tester :=
  {| monitoredActions := []; capturedActions := []; promises := [] |}.

(** The own property [key] of the object used as a map from action types. *)
Fixpoint lookup (key : string) (record : list (string * MonitoredAction))
  : option MonitoredAction :=
  match record with
  | [] => None
  | (k, v) :: record' => if String.eqb k key then Some v else lookup key record'
  end.

(** [record[key] = value]: an existing key keeps its place, a new one goes
    last. *)
Fixpoint assign (key : string) (value : MonitoredAction)
    (record : list (string * MonitoredAction)) : list (string * MonitoredAction) :=
  match record with
  | [] => [(key, value)]
  | (k, v) :: record' =>
      if String.eqb k key then (k, value) :: record'
      else (k, v) :: assign key value record'
  end.

(** The state of a promise; an index never handed out reads as pending. *)
Definition settled_with (id : nat) (t : Tester) : option PayloadAction :=
  nth id (promises t) None.

(** Calling the [resolve] function of a promise: only a pending promise
    changes. *)
Fixpoint resolve_promise (id : nat) (action : PayloadAction)
    (ps : list (option PayloadAction)) : list (option PayloadAction) :=
  match ps, id with
  | [], _ => []
  | None :: ps', 0 => Some action :: ps'
  | Some first :: ps', 0 => Some first :: ps'
  | p :: ps', S id' => p :: resolve_promise id' action ps'
  end.

(** What [this.monitoredActions[actionType]] reads: an own property, else a
    property inherited from [Object.prototype], else [undefined]. *)
Inductive Found : Type :=
| monitor (existingAction : MonitoredAction)
| inherited_value
| missing.

Definition read (actionType : string) (record : list (string * MonitoredAction))
  : Found :=
  match lookup actionType record with
  | Some existingAction => monitor existingAction
  | None => if inherited actionType then inherited_value else missing
  end.

(** [getOrCreateMonitoredAction]; the result is [None] when the truthy value
    found is an inherited one, which the method returns as it is. *)
Definition getOrCreateMonitoredAction (actionType : string) (t : Tester)
  : option MonitoredAction * Tester :=
  match read actionType (monitoredActions t) with
  | monitor existingAction => (Some existingAction, t)
  | inherited_value => (None, t)
  | missing =>
      let newAction := {| calls := 0; promise := List.length (promises t) |} in
      (Some newAction,
       {| monitoredActions := assign actionType newAction (monitoredActions t);
          capturedActions := capturedActions t;
          promises := promises t ++ [None] |})
  end.

(** How a call ends. *)
Inductive Completion : Type :=
| returned
| threw_TypeError.

(** [onActionCaptured].  On an inherited value [calls += 1] writes to that
    value, outside the tester, and [resolve] is not a function. *)
Definition onActionCaptured (action : PayloadAction) (t : Tester)
  : Completion * Tester :=
  let t1 := {| monitoredActions := monitoredActions t;
               capturedActions := capturedActions t ++ [action];
               promises := promises t |} in
  match getOrCreateMonitoredAction (type action) t1 with
  | (Some monitoredAction, t2) =>
      (* monitoredAction.calls += 1, on the object that the record holds *)
      let counted := {| calls := calls monitoredAction + 1;
                        promise := promise monitoredAction |} in
      (returned,
       {| monitoredActions := assign (type action) counted (monitoredActions t2);
          capturedActions := capturedActions t2;
          (* monitoredAction.resolve(action) *)
          promises := resolve_promise (promise counted) action (promises t2) |})
  | (None, t2) => (threw_TypeError, t2)
  end.

(** The middleware installed by the constructor; [None] when it throws
    before it reaches [next]. *)
Definition testerMiddleware {R : Type} (next : PayloadAction -> R)
    (action : PayloadAction) (t : Tester) : option R * Tester :=
  if String.prefix "@@redux/" (type action) then (Some (next action), t)
  else
    match onActionCaptured action t with
    | (returned, t') => (Some (next action), t')
    | (threw_TypeError, t') => (None, t')
    end.

(** [waitFor]: the monitored promise that the method races against its
    timeout; [None] when [.promise] is read from an inherited value and is
    [undefined], so that the race is won at once by [undefined]. *)
Definition waitFor (actionType : string) (t : Tester) : option nat * Tester :=
  match getOrCreateMonitoredAction actionType t with
  | (Some monitoredAction, t') => (Some (promise monitoredAction), t')
  | (None, t') => (None, t')
  end.

Definition resetMonitors (t : Tester) : Tester :=
  {| monitoredActions := []; capturedActions := []; promises := promises t |}.

(** What can happen to a tester: an action passes its middleware, a test
    waits for an action type, a test resets the monitors. *)
Inductive Op : Type :=
| Passes (action : PayloadAction)
| Waits (actionType : string)
| Resets.

Definition step (t : Tester) (op : Op) : Tester :=
  match op with
  | Passes action => snd (testerMiddleware (fun _ => tt) action t)
  | Waits actionType => snd (waitFor actionType t)
  | Resets => resetMonitors t
  end.

Fixpoint exec (ops : list Op) (t : Tester) : Tester :=
  match ops with
  | [] => t
  | op :: ops' => exec ops' (step t op)
  end.

(** The actions that a sequence of operations leaves captured. *)
Fixpoint captured_by (ops : list Op) (sofar : list PayloadAction)
  : list PayloadAction :=
  match ops with
  | [] => sofar
  | Passes action :: ops' =>
      captured_by ops'
        (if String.prefix "@@redux/" (type action) then sofar
         else sofar ++ [action])
  | Waits _ :: ops' => captured_by ops' sofar
  | Resets :: ops' => captured_by ops' []
  end.

Definition has_type (actionType : string) (action : PayloadAction) : bool :=
  String.eqb (type action) actionType.

Definition count_type (actionType : string) (l : list PayloadAction) : nat :=
  List.length (filter (has_type actionType) l).

Definition calls_of (actionType : string) (t : Tester) : nat :=
  match lookup actionType (monitoredActions t) with
  | Some monitoredAction => calls monitoredAction
  | None => 0
  end.

(** What every reachable tester satisfies: each monitored entry is for a
    name that is not inherited, counts the captured actions of its type and
    its promise holds the first of them; a type without entry is inherited
    or has no captured action; entries do not share promises. *)
Definition consistent (t : Tester) : Prop :=
  (forall ty,
     match lookup ty (monitoredActions t) with
     | Some m =>
         inherited ty = false
         /\ promise m < List.length (promises t)
         /\ calls m = count_type ty (capturedActions t)
         /\ settled_with (promise m) t = find (has_type ty) (capturedActions t)
     | None => inherited ty = false -> count_type ty (capturedActions t) = 0
     end)
  /\ (forall ty1 ty2 m1 m2,
        lookup ty1 (monitoredActions t) = Some m1 ->
        lookup ty2 (monitoredActions t) = Some m2 ->
        promise m1 = promise m2 -> ty1 = ty2).

(** A promise that no monitored entry refers to. *)
Definition unreferenced (id : nat) (t : Tester) : Prop :=
  id < List.length (promises t)
  /\ forall ty m, lookup ty (monitoredActions t) = Some m ->
                  promise m <> id.

End Tester.

End DashboardTester.

(** ** Overlay: align classes, child overlays, listener bookkeeping *)

Module Overlay.

(** *** Arrays and strings of the run time *)

(** lodash's [findIndex]: the index of the first match, [-1] without one. *)
Fixpoint findIndex {A : Type} (array : list A) (predicate : A -> bool) : Z :=
  match array with
  | [] => (-1)%Z
  | x :: array' =>
      if predicate x then 0%Z
      else let i := findIndex array' predicate in
           if (i <? 0)%Z then (-1)%Z else (i + 1)%Z
  end.

(** [array.slice(start)]: a negative [start] counts from the end. *)
Definition slice {A : Type} (array : list A) (start : Z) : list A :=
  if (start <? 0)%Z
  then skipn (List.length array - Z.to_nat (- start)) array
  else skipn (Z.to_nat start) array.

(** [s.split(sep)] for a separator of one character: never empty. *)
Fixpoint split (sep : ascii) (s : string) : list string :=
  match s with
  | EmptyString => [EmptyString]
  | String ch s' =>
      if Ascii.eqb ch sep then EmptyString :: split sep s'
      else match split sep s' with
           | [] => [String ch EmptyString]
           | first :: others => String ch first :: others
           end
  end.

(** A value spliced into a template literal: a missing array element reads
    as [undefined]. *)
Definition spliced (v : option string) : string :=
  match v with
  | Some s => s
  | None => "undefined"
  end.

(** *** [getAlignClasses] *)

Definition getAlignClasses (state_alignment_align : string) : string :=
  let align := split " "%char state_alignment_align in
  "target-" ++ spliced (nth_error align 0)
  ++ " self-" ++ spliced (nth_error align 1).

(** A string without a space. *)
Fixpoint no_space (s : string) : bool :=
  match s with
  | EmptyString => true
  | String ch s' => negb (Ascii.eqb ch " "%char) && no_space s'
  end.

(** *** [isElementInChildOverlay] *)

Section ChildOverlays.

(** DOM nodes, their identity and [Node.contains]. *)
Variable Node : Type.
Variable same_node : Node -> Node -> bool.
Variable contains : Node -> Node -> bool.

(** [overlays] is [document.querySelectorAll(".overlay-wrapper")], in
    document order; [overlayRef_current] is [null] before the first render
    and after unmount. *)
Definition isElementInChildOverlay (overlays : list Node)
    (overlayRef_current : option Node) (element : Node) : bool :=
  let thisOverlayIndex :=
    findIndex overlays
      (fun overlay =>
         match overlayRef_current with
         | Some this_overlay => same_node overlay this_overlay
         | None => false
         end) in
  existsb (fun overlay => contains overlay element)
          (slice overlays (thisOverlayIndex + 1)).

End ChildOverlays.

(** *** Listener bookkeeping *)

Inductive EventTarget : Type := document | window.

(** An entry of the [events] table. *)
Record OverlayEvent : Type := {
  name : string;
  handler : string;
  target : option EventTarget;
  requiredProp : option string
}.

Definition events : list OverlayEvent :=
  [ {| name := "click"; handler := "closeOnOutsideClick";
       target := Some document; requiredProp := None |};
    {| name := "mousedown"; handler := "onDocumentMouseDown";
       target := Some document; requiredProp := Some "closeOnOutsideClick" |};
    {| name := "goodstrap.scrolled"; handler := "closeOnParentScroll";
       target := None; requiredProp := None |};
    {| name := "goodstrap.drag"; handler := "closeOnMouseDrag";
       target := None; requiredProp := None |};
    {| name := "keydown"; handler := "closeOnEscape";
       target := None; requiredProp := None |} ].

Definition eventProps : list string := map handler events.

(** The values a looked-up property can have, as far as the bookkeeping
    tells them apart. *)
Inductive JsValue : Type :=
| JsUndefined
| JsBoolean (b : bool)
| JsObject (identity : nat).

Definition truthy (v : option JsValue) : bool :=
  match v with
  | Some (JsBoolean b) => b
  | Some (JsObject _) => true
  | Some JsUndefined | None => false
  end.

Definition JsValue_eqb (a b : JsValue) : bool :=
  match a, b with
  | JsUndefined, JsUndefined => true
  | JsBoolean x, JsBoolean y => Bool.eqb x y
  | JsObject x, JsObject y => Nat.eqb x y
  | _, _ => false
  end.

(** A props object: the own properties by name; [None] is a missing key. *)
Definition Props : Type := string -> option JsValue.

(** [props[key]], where an [undefined] key reads the property named
    "undefined". *)
Definition prop (props : Props) (key : option string) : option JsValue :=
  props (match key with Some k => k | None => "undefined" end).

(** [isEqual(pick(a, eventProps), pick(b, eventProps))]: the same keys of
    [eventProps] are present, with equal values. *)
Definition same_event_props (a b : Props) : bool :=
  forallb (fun key =>
             match a key, b key with
             | None, None => true
             | Some x, Some y => JsValue_eqb x y
             | _, _ => false
             end) eventProps.

(** A registered listener: where, for which event, and which function. The
    functions of this overlay are its bound handlers, named by the method;
    every other function is somebody else's. *)
Inductive Callback : Type :=
| this_handler (method : string)
| foreign (identity : nat).

Record Listener : Type := {
  on : EventTarget;
  event_name : string;
  callback : Callback
}.

Definition Callback_eqb (a b : Callback) : bool :=
  match a, b with
  | this_handler x, this_handler y => String.eqb x y
  | foreign x, foreign y => Nat.eqb x y
  | _, _ => false
  end.

Definition EventTarget_eqb (a b : EventTarget) : bool :=
  match a, b with
  | document, document | window, window => true
  | _, _ => false
  end.

Definition Listener_eqb (a b : Listener) : bool :=
  EventTarget_eqb (on a) (on b)
  && String.eqb (event_name a) (event_name b)
  && Callback_eqb (callback a) (callback b).

(** [target.addEventListener(name, f)]: a listener already registered is not
    registered twice. *)
Definition addEventListener (l : Listener) (registered : list Listener)
  : list Listener :=
  if existsb (Listener_eqb l) registered then registered else registered ++ [l].

(** [target.removeEventListener(name, f)] *)
Definition removeEventListener (l : Listener) (registered : list Listener)
  : list Listener :=
  filter (fun l' => negb (Listener_eqb l l')) registered.

Inductive Method : Type := add | remove.

(** The listener that [updateListeners] handles for an entry:
    [(event.target || window)] and [this[event.handler]]. *)
Definition listener_of (event : OverlayEvent) : Listener :=
  {| on := match target event with Some t => t | None => window end;
     event_name := name event;
     callback := this_handler (handler event) |}.

(** The test of [updateListeners]:
    [props[event.handler] || props[event.requiredProp]]. *)
Definition wanted (props : Props) (event : OverlayEvent) : bool :=
  truthy (prop props (Some (handler event)))
  || truthy (prop props (requiredProp event)).

(** [updateListeners] over a table of events; [this[event.handler]] is one
    of the five methods bound by the constructor, so the inner test holds. *)
Definition updateListeners_over (table : list OverlayEvent) (method : Method)
    (props : Props) (registered : list Listener) : list Listener :=
  fold_left
    (fun registered event =>
       if wanted props event then
         match method with
         | add => addEventListener (listener_of event) registered
         | remove => removeEventListener (listener_of event) registered
         end
       else registered)
    table registered.

Definition updateListeners := updateListeners_over events.

Definition addListeners (props : Props) := updateListeners add props.
Definition removeListeners (props : Props) := updateListeners remove props.

(** [componentWillReceiveProps]; afterwards React makes [nextProps] the
    props of the component. *)
Definition componentWillReceiveProps (this_props nextProps : Props)
    (registered : list Listener) : list Listener :=
  if negb (same_event_props this_props nextProps)
  then addListeners nextProps (removeListeners this_props registered)
  else registered.

(** The listeners after mounting with [props] and receiving the props of
    [updates] one after the other. *)
Fixpoint after_updates (this_props : Props) (updates : list Props)
    (registered : list Listener) : list Listener :=
  match updates with
  | [] => registered
  | nextProps :: updates' =>
      after_updates nextProps updates'
        (componentWillReceiveProps this_props nextProps registered)
  end.

(** The props of the component after those updates. *)
Fixpoint last_props (this_props : Props) (updates : list Props) : Props :=
  match updates with
  | [] => this_props
  | nextProps :: updates' => last_props nextProps updates'
  end.

Definition is_own (l : Listener) : bool :=
  match callback l with this_handler _ => true | foreign _ => false end.

Definition is_foreign (l : Listener) : bool := negb (is_own l).

(** [l] is the listener of an entry of [table] that [props] asks for. *)
Definition asked_for (table : list OverlayEvent) (props : Props) (l : Listener)
  : Prop :=
  exists event, In event table /\ wanted props event = true
                /\ l = listener_of event.

(** The props object has no truthy property called "undefined", the name
    under which [props[event.requiredProp]] reads when an entry has no
    [requiredProp]. *)
Definition plain (props : Props) : Prop := truthy (props "undefined") = false.

(** The overlay's own listeners are those that [props] asks for. *)
Definition in_step (props : Props) (registered : list Listener) : Prop :=
  forall l, is_own l = true -> (In l registered <-> asked_for events props l).

End Overlay.

(** ** Execute: the life of the component *)

(** The component's SDK handling (cloning, telemetry headers) does not
    influence what is modelled and is left out; [setState] is a merge into
    the state. *)
Module Execute.

(** What the component takes from outside: the types it passes around
    (callbacks are known by their identity), lodash's [isEqual] on AFMs and
    on optional result specs, [!==] on children, the two [ErrorCodes] of the
    data layer and the three [ErrorStates] that the error handler uses. *)
Class Environment : Type := {
  Afm : Type;
  ResultSpec : Type;
  Responses : Type;
  Children : Type;
  Callback : Type;
  afm_isEqual : Afm -> Afm -> bool;
  resultSpec_isEqual : option ResultSpec -> option ResultSpec -> bool;
  children_same : Children -> Children -> bool;
  HTTP_TOO_LARGE : nat;
  HTTP_BAD_REQUEST : nat;
  DATA_TOO_LARGE_TO_COMPUTE : string;
  BAD_REQUEST : string;
  UNKNOWN_ERROR_STATE : string
}.

Section Component.

Context {env : Environment}.

(** [IExecuteProps] after [defaultProps]: both callbacks are present. *)
Record IExecuteProps : Type := {
  afm : Afm;
  resultSpec : option ResultSpec;
  children : Children;
  onError : Callback;
  onLoadingChanged : Callback
}.

(** [Execution.IError], as far as the handler looks into it: the HTTP status
    of the response, when there is a response. *)
Record IError : Type := {
  response : option nat
}.

(** [{ status, error }]; a [status] read from a missing property of
    [statusMap] would be [undefined], here [None]. *)
Record NewError : Type := {
  status : option string;
  error : option IError
}.

Record IExecuteState : Type := {
  result : option Responses;
  isLoading : bool;
  state_error : option NewError
}.

(** The keys of [statusMap]: a status code or the string [UNKNOWN_ERROR]. *)
Inductive Key : Type :=
| code (n : nat)
| UNKNOWN_ERROR.

Definition Key_eqb (a b : Key) : bool :=
  match a, b with
  | code x, code y => Nat.eqb x y
  | UNKNOWN_ERROR, UNKNOWN_ERROR => true
  | _, _ => false
  end.

(** An object literal: a later entry with the same key replaces an earlier
    one, so the lookup reads the entries from the last. *)
Fixpoint own_property (entries : list (Key * string)) (key : Key) : option string :=
  match entries with
  | [] => None
  | (k, v) :: entries' =>
      match own_property entries' key with
      | Some later => Some later
      | None => if Key_eqb k key then Some v else None
      end
  end.

Definition statusMap : list (Key * string) :=
  [ (code HTTP_TOO_LARGE, DATA_TOO_LARGE_TO_COMPUTE);
    (code HTTP_BAD_REQUEST, BAD_REQUEST);
    (UNKNOWN_ERROR, UNKNOWN_ERROR_STATE) ].

(** [error && error.response && error.response.status || UNKNOWN_ERROR]:
    a missing error, a missing response and the status 0 are falsy. *)
Definition errorCode (error : option IError) : Key :=
  match error with
  | Some e =>
      match response e with
      | Some 0 | None => UNKNOWN_ERROR
      | Some n => code n
      end
  | None => UNKNOWN_ERROR
  end.

(** [statusMap[statusMap.hasOwnProperty(errorCode) ? errorCode : UNKNOWN_ERROR]];
    a missing property reads as [None]. *)
Definition status_of (error : option IError) : option string :=
  let errorCode := errorCode error in
  own_property statusMap
    (match own_property statusMap errorCode with
     | Some _ => errorCode
     | None => UNKNOWN_ERROR
     end).

(** What leaves the component. *)
Inductive Effect : Type :=
| loading_changed (callback : Callback) (isLoading : bool)
| error_reported (callback : Callback) (newError : NewError)
| getData (afm : Afm) (resultSpec : option ResultSpec).

(** A mounted instance: [this.props], [this.state], the props that the
    constructor saw (its handlers keep the callbacks of those), and the
    effects so far. *)
Record Instance : Type := {
  this_props : IExecuteProps;
  this_state : IExecuteState;
  constructed_with : IExecuteProps;
  effects : list Effect
}.

Definition constructor (props : IExecuteProps) : Instance :=
  {| this_props := props;
     this_state := {| result := None; isLoading := true; state_error := None |};
     constructed_with := props;
     effects := [] |}.

Definition runExecution (props : IExecuteProps) (this : Instance) : Instance :=
  {| this_props := this_props this;
     this_state := {| result := None; isLoading := true; state_error := None |};
     constructed_with := constructed_with this;
     effects := effects this
                ++ [loading_changed (onLoadingChanged props) true;
                    getData (afm props) (resultSpec props)] |}.

Definition componentWillMount (this : Instance) : Instance :=
  runExecution (this_props this) this.

(** The handler given to [dataTable.onData]. *)
Definition onData_handler (result : Responses) (this : Instance) : Instance :=
  {| this_props := this_props this;
     this_state := {| result := Some result; isLoading := false;
                 state_error := state_error (this_state this) |};
     constructed_with := constructed_with this;
     effects := effects this
                ++ [loading_changed (onLoadingChanged (constructed_with this)) false] |}.

(** The handler given to [dataTable.onError]. *)
Definition onError_handler (error : option IError) (this : Instance) : Instance :=
  let newError := {| status := status_of error; error := error |} in
  {| this_props := this_props this;
     this_state := {| result := None; isLoading := false;
                 state_error := Some newError |};
     constructed_with := constructed_with this;
     effects := effects this
                ++ [loading_changed (onLoadingChanged (constructed_with this)) false;
                    error_reported (onError (constructed_with this)) newError] |}.

Inductive PropName : Type := prop_afm | prop_resultSpec | prop_children.

Definition isPropChanged (this : Instance) (nextProps : IExecuteProps)
    (propName : PropName) : bool :=
  match propName with
  | prop_children => negb (children_same (children nextProps) (children (this_props this)))
  | prop_afm => negb (afm_isEqual (afm nextProps) (afm (this_props this)))
  | prop_resultSpec =>
      negb (resultSpec_isEqual (resultSpec nextProps) (resultSpec (this_props this)))
  end.

Definition hasPropsChanged (this : Instance) (nextProps : IExecuteProps)
    (propNames : list PropName) : bool :=
  existsb (isPropChanged this nextProps) propNames.

(** [componentWillReceiveProps], after which React installs [nextProps]. *)
Definition componentWillReceiveProps (nextProps : IExecuteProps) (this : Instance)
  : Instance :=
  let this' :=
    if hasPropsChanged this nextProps [prop_afm; prop_resultSpec]
    then runExecution nextProps this
    else this in
  {| this_props := nextProps;
     this_state := this_state this';
     constructed_with := constructed_with this';
     effects := effects this' |}.

(** What happens to a mounted instance. *)
Inductive Happening : Type :=
| receives (nextProps : IExecuteProps)
| data_arrives (result : Responses)
| error_arrives (error : option IError).

Definition happen (this : Instance) (h : Happening) : Instance :=
  match h with
  | receives nextProps => componentWillReceiveProps nextProps this
  | data_arrives result => onData_handler result this
  | error_arrives error => onError_handler error this
  end.

Fixpoint life (this : Instance) (hs : list Happening) : Instance :=
  match hs with
  | [] => this
  | h :: hs' => life (happen this h) hs'
  end.

Definition mounted (props : IExecuteProps) : Instance :=
  componentWillMount (constructor props).

(** The [isLoading] of the last announcement, if any. *)
Fixpoint last_announced (es : list Effect) (sofar : option bool) : option bool :=
  match es with
  | [] => sofar
  | loading_changed _ b :: es' => last_announced es' (Some b)
  | _ :: es' => last_announced es' sofar
  end.

Definition is_getData (e : Effect) : bool :=
  match e with getData _ _ => true | _ => false end.

(** The updates among [hs] that change the AFM or the result spec, judged
    against the props in force when each arrives. *)
Fixpoint executions_due (current : IExecuteProps) (hs : list Happening) : nat :=
  match hs with
  | [] => 0
  | receives nextProps :: hs' =>
      (if negb (afm_isEqual (afm nextProps) (afm current))
          || negb (resultSpec_isEqual (resultSpec nextProps) (resultSpec current))
       then 1 else 0)
      + executions_due nextProps hs'
  | _ :: hs' => executions_due current hs'
  end.

(** The executions an instance has started. *)
Definition executions (this : Instance) : nat :=
  List.length (filter is_getData (effects this)).

(** An effect that ends loading or reports an error goes to a callback of
    the given props. *)
Definition delivered_to (props : IExecuteProps) (e : Effect) : Prop :=
  match e with
  | loading_changed callback false => callback = onLoadingChanged props
  | error_reported callback _ => callback = onError props
  | _ => True
  end.

End Component.

End Execute.

(** ** Concrete inputs for the other components *)

Module Inputs.

Definition first_load : DashboardTester.PayloadAction nat :=
  {| DashboardTester.type := "GDC.DASH/CMD.LOAD"; DashboardTester.payload := 1 |}.

(** The properties of [Object.prototype]. *)
Definition Object_prototype (key : string) : bool :=
  existsb (String.eqb key)
    ["constructor"; "__proto__"; "hasOwnProperty"; "isPrototypeOf";
     "propertyIsEnumerable"; "toLocaleString"; "toString"; "valueOf";
     "__defineGetter__"; "__defineSetter__"; "__lookupGetter__";
     "__lookupSetter__"].

Definition second_load : DashboardTester.PayloadAction nat :=
  {| DashboardTester.type := "GDC.DASH/CMD.LOAD"; DashboardTester.payload := 2 |}.

(** [node.contains(element)] on a toy document: a node contains the nodes of
    the same hundred. *)
Definition toy_contains (node element : nat) : bool :=
  Nat.eqb (node / 100) (element / 100).

Definition closing_on_outside_click : Overlay.Props :=
  fun key =>
    if String.eqb key "closeOnOutsideClick" then Some (Overlay.JsBoolean true)
    else if String.eqb key "closeOnEscape" then Some (Overlay.JsBoolean false)
    else None.

Definition closing_on_escape : Overlay.Props :=
  fun key =>
    if String.eqb key "closeOnOutsideClick" then Some (Overlay.JsBoolean false)
    else if String.eqb key "closeOnEscape" then Some (Overlay.JsBoolean true)
    else None.

Definition somebody_elses_listener : Overlay.Listener :=
  {| Overlay.on := Overlay.window; Overlay.event_name := "resize";
     Overlay.callback := Overlay.foreign 1 |}.

End Inputs.

(** * Properties *)

Section Properties.

Context {D : Domain} {C : Collaborators}.

(** Replace the backend's answers by what is known about them, or split on
    how they settle; split on the kind of a read error and on the presence
    of [props.pushData] where the code branches on them. *)
Ltac settle_backend :=
  match goal with
  | H : be_execute ?b ?x = _ |- context [be_execute ?b ?x] => rewrite H
  | H : be_readWindow ?b ?r ?o ?n = _
    |- context [be_readWindow ?b ?r ?o ?n] => rewrite H
  | |- context [be_execute ?b ?x] => destruct (be_execute b x) eqn:?
  | |- context [be_readWindow ?b ?r ?o ?n] =>
      destruct (be_readWindow b r o n) eqn:?
  | |- context [isUnexpectedResponseError ?e] => destruct e as [[?|]| | |]
  | H : pushData ?p = _ |- context [pushData ?p] => rewrite H
  | |- context [pushData ?p] => destruct (pushData p) eqn:?
  end.

(** Fix the owner's schedule from the hypotheses about it. *)
Ltac fix_schedule s :=
  destruct s as [before executing reading after];
  unfold abandoned_when_execute_settles, abandoned_when_readWindow_settles in *;
  cbn [before_initialize while_executing while_reading after_settled] in *;
  repeat match goal with
  | H : _ || _ = false |- _ => apply orb_false_iff in H; destruct H
  end;
  subst.

Ltac play :=
  unfold session, initialize; cbn;
  repeat (first [settle_backend | progress unfold this_props_pushData]; cbn).

(** ** The backend calls of one initialization *)

(** C9 (amended): every [initialize] call invokes [execute] exactly once on
    the execution handle; it invokes [readWindow] exactly once, on the result
    and for the first page, when [execute] resolves, and never when [execute]
    rejects.  Nothing is retried, however the two steps settle and wherever
    the owner abandons. *)
Theorem backend_calls_of_session (be : Backend) (s : Schedule)
    (e : IPreparedExecution) (c : TableConfig) (p : ICorePivotTableProps) :
  let w := snd (session be s e c p) in
  backend_calls (log w) =
    match be_execute be e with
    | Fulfilled result =>
        [execute_called e;
         readWindow_called result (0, 0) (pageSize p, COLS_PER_PAGE)]
    | Rejected _ => [execute_called e]
    end
  /\ count is_execute_called (log w) = 1
  /\ count is_readWindow_called (log w) =
       match be_execute be e with Fulfilled _ => 1 | Rejected _ => 0 end.
Proof.
  destruct s as [[] [] [] []]; play; auto.
Qed.

(** ** The flag *)

Lemma record_keeps_flag (ev : Event) (w : World) :
  abandoned (this (record ev w)) = abandoned (this w).
Proof. reflexivity. Qed.

Lemma owner_sets_flag (b : bool) (w : World) :
  abandoned (this (owner b w)) = abandoned (this w) || b.
Proof.
  unfold owner, abandon, invariant.
  destruct b; [| now rewrite orb_false_r].
  destruct (abandoned (this w)) eqn:E; cbn; [exact E | reflexivity].
Qed.

(** Playing a chain never clears the flag: no constructor of a chain writes
    it, and the owner can only set it. *)
Lemma run_keeps_flag_set {A : Type} (be : Backend) (p : Promise A) :
  forall (turns : list bool) (w : World),
    abandoned (this w) = true ->
    abandoned (this (snd (run be p turns w))) = true.
Proof.
  induction p as [a | r | ev k IH | k IH | x k IH | r o n k IH];
    intros turns w Hw; cbn; auto.
  - apply IH. rewrite record_keeps_flag, owner_sets_flag, record_keeps_flag, Hw.
    reflexivity.
  - apply IH. rewrite record_keeps_flag, owner_sets_flag, record_keeps_flag, Hw.
    reflexivity.
Qed.

(** Without the owner, a chain leaves the flag as it found it: [initialize]
    only reads it. *)
Lemma run_alone_keeps_flag {A : Type} (be : Backend) (p : Promise A) :
  forall (w : World),
    abandoned (this (snd (run be p [] w))) = abandoned (this w).
Proof.
  induction p as [a | r | ev k IH | k IH | x k IH | r o n k IH];
    intros w; cbn; auto.
  - rewrite IH. reflexivity.
  - rewrite IH. reflexivity.
  - rewrite IH. reflexivity.
Qed.

(** C5: [abandon] on an instance whose flag is clear sets the flag and
    changes nothing else; on an instance whose flag is set, and so in
    particular when called a second time, it throws the invariant violation
    and leaves the instance alone.  In every session at most one [abandon]
    call is accepted and the flag, once set, is never cleared. *)
Theorem abandon_once (i : TableFacadeInitializer) :
  (abandoned i = false ->
     exists i', abandon i = inr i'
       /\ abandoned i' = true
       /\ execution i' = execution i /\ config i' = config i /\ props i' = props i
       /\ abandon i' = inl Invariant_Violation)
  /\ (abandoned i = true -> abandon i = inl Invariant_Violation)
  /\ (forall be s e c p,
        let w := snd (session be s e c p) in
        count is_accepted_abandon (log w) <= 1
        /\ flag_never_cleared (log w) = true).
Proof.
  split; [| split].
  - intros Hclear. unfold abandon, invariant. rewrite Hclear. cbn.
    eexists. repeat split.
  - intros Hset. unfold abandon, invariant. rewrite Hset. reflexivity.
  - intros be s e c p. destruct s as [[] [] [] []]; play; split; auto.
Qed.

(** The two schedule-derived flags are what the log shows at the moment the
    corresponding backend promise settles, which is when its handler runs. *)
Lemma flag_when_execute_settles (be : Backend) (s : Schedule)
    (e : IPreparedExecution) (c : TableConfig) (p : ICorePivotTableProps) :
  In {| flag := abandoned_when_execute_settles s;
        event := execute_settled (be_execute be e) |}
     (log (snd (session be s e c p))).
Proof.
  destruct s as [[] [] [] []]; play; cbn; tauto.
Qed.

Lemma flag_when_readWindow_settles (be : Backend) (s : Schedule)
    (e : IPreparedExecution) (c : TableConfig) (p : ICorePivotTableProps)
    (result : IExecutionResult) :
  be_execute be e = Fulfilled result ->
  In {| flag := abandoned_when_readWindow_settles s;
        event := readWindow_settled
                   (be_readWindow be result (0, 0) (pageSize p, COLS_PER_PAGE)) |}
     (log (snd (session be s e c p))).
Proof.
  intros Hexec.
  destruct s as [[] [] [] []]; play; cbn; tauto.
Qed.

(** ** The paths of [initialize] *)

(** C2: when [execute] resolves, [readWindow] is invoked on its result with
    offset [0,0] and size [pageSize, COLS_PER_PAGE]; when that read resolves
    too and the flag is clear at that point, the log is
    [onLoadingChanged(true)] first, before the backend is called, and after
    the read [onLoadingChanged(false)], [onExportReady] once with the export
    function of the facade and the export title, [pushData] once with the
    data view and the facade's drill targets; the promise resolves with the
    facade built from that result and data view. *)
Theorem success_path (be : Backend) (s : Schedule)
    (e : IPreparedExecution) (c : TableConfig) (p : ICorePivotTableProps)
    (result : IExecutionResult) :
  be_execute be e = Fulfilled result ->
  let r := session be s e c p in
  backend_calls (log (snd r)) =
    [execute_called e;
     readWindow_called result (0, 0) (pageSize p, COLS_PER_PAGE)]
  /\ forall dataView : IDataView,
       be_readWindow be result (0, 0) (pageSize p, COLS_PER_PAGE)
         = Fulfilled dataView ->
       abandoned_when_readWindow_settles s = false ->
       let table := {| tf_result := result; tf_dataView := dataView;
                       tf_config := c; tf_props := p |} in
       fst r = Fulfilled (Some table)
       /\ events (log (snd r)) =
            [config_onLoadingChanged true;
             execute_called e;
             execute_settled (Fulfilled result);
             readWindow_called result (0, 0) (pageSize p, COLS_PER_PAGE);
             readWindow_settled (Fulfilled dataView);
             config_onLoadingChanged false;
             config_onExportReady (createExportFunction table (exportTitle p));
             config_pushData
               {| dataView := Some dataView;
                  availableDrillTargets := table_getAvailableDrillTargets table |}]
            ++ (if after_settled s then [owner_abandon true] else [])
       /\ count is_onExportReady (log (snd r)) = 1
       /\ count is_pushData (log (snd r)) = 1.
Proof.
  intros Hexec r. subst r. split.
  - destruct s as [[] [] [] []]; play; reflexivity.
  - intros dataView Hread Hclear table. subst table.
    fix_schedule s. destruct after; play; repeat split.
Qed.

(** C3: when the owner abandons after [initialize] has started and before
    the [execute] promise settles, the only callback of the session is the
    [onLoadingChanged(true)] that preceded the abandonment, the promise
    resolves with the no-result value, and the backend is used as in the
    session that is never abandoned: [execute] is invoked and settles, and
    when it resolves [readWindow] is invoked and settles as well. *)
Theorem abandoned_while_executing (be : Backend) (s : Schedule)
    (e : IPreparedExecution) (c : TableConfig) (p : ICorePivotTableProps) :
  before_initialize s = false ->
  while_executing s = true ->
  let r := session be s e c p in
  fst r = Fulfilled NONE
  /\ callbacks (log (snd r)) = [config_onLoadingChanged true]
  /\ callbacks_while_abandoned (log (snd r)) = []
  /\ events (log (snd r)) =
       [config_onLoadingChanged true; execute_called e; owner_abandon true;
        execute_settled (be_execute be e)]
       ++ match be_execute be e with
          | Fulfilled result =>
              [readWindow_called result (0, 0) (pageSize p, COLS_PER_PAGE)]
              ++ (if while_reading s then [owner_abandon false] else [])
              ++ [readWindow_settled
                    (be_readWindow be result (0, 0) (pageSize p, COLS_PER_PAGE))]
          | Rejected _ => []
          end
       ++ (if after_settled s then [owner_abandon false] else [])
  /\ backend_calls (log (snd r)) =
       backend_calls (log (snd (session be never e c p))).
Proof.
  intros Hbefore Hexecuting r. subst r.
  destruct s as [before executing reading after]. cbn in Hbefore, Hexecuting.
  subst. destruct reading, after; play; repeat split.
Qed.


(** C6 (the code at the failing input): [execute] resolves, [readWindow]
    rejects with an unexpected-response error, the flag is clear and
    [props.pushData] is absent.  The call [this.props.pushData!(...)] raises a
    [TypeError]; the outer rejection handler reports that error, not the
    read error, and no [pushData] callback is invoked at all. *)
Theorem unexpected_response_without_props_pushData (be : Backend) (s : Schedule)
    (e : IPreparedExecution) (c : TableConfig) (p : ICorePivotTableProps)
    (result : IExecutionResult) :
  pushData p = None ->
  be_execute be e = Fulfilled result ->
  be_readWindow be result (0, 0) (pageSize p, COLS_PER_PAGE)
    = Rejected UnexpectedResponseError ->
  abandoned_when_readWindow_settles s = false ->
  let r := session be s e c p in
  fst r = Fulfilled undefined
  /\ callbacks_after_settlement (log (snd r)) =
       [config_onError
          (convertError (TypeError "this.props.pushData is not a function")) e]
  /\ count is_config_pushData (log (snd r)) = 0
  /\ count is_pushData (log (snd r)) = 0.
Proof.
  intros Habsent Hexec Hread Hclear r. subst r.
  fix_schedule s. destruct after; play; repeat split.
Qed.

(** The same path when [props.pushData] is present: the drill targets of the
    execution result go to the handler stored in [props], never to
    [config.pushData]; the read error is then reported once. *)
Lemma unexpected_response_with_props_pushData (be : Backend) (s : Schedule)
    (e : IPreparedExecution) (c : TableConfig) (p : ICorePivotTableProps)
    (result : IExecutionResult) (handler : PushDataHandler) :
  pushData p = Some handler ->
  be_execute be e = Fulfilled result ->
  be_readWindow be result (0, 0) (pageSize p, COLS_PER_PAGE)
    = Rejected UnexpectedResponseError ->
  abandoned_when_readWindow_settles s = false ->
  let r := session be s e c p in
  fst r = Fulfilled undefined
  /\ callbacks_after_settlement (log (snd r)) =
       [props_pushData handler
          {| dataView := None;
             availableDrillTargets :=
               getAvailableDrillTargetsFromExecutionResult result |};
        config_onError (convertError UnexpectedResponseError) e]
  /\ count is_config_pushData (log (snd r)) = 0.
Proof.
  intros Hpresent Hexec Hread Hclear r. subst r.
  fix_schedule s. destruct after; play; repeat split.
Qed.

(** C7: when [execute] resolves, [readWindow] rejects with a no-data error
    that carries a data view and the flag is clear, the rejection handler
    calls [pushData] once with the drill targets of that data view, then
    [onLoadingChanged(false)], then [onError] once with the converted error
    and the execution handle; the promise resolves with [undefined]. *)
Theorem no_data_with_data_view (be : Backend) (s : Schedule)
    (e : IPreparedExecution) (c : TableConfig) (p : ICorePivotTableProps)
    (result : IExecutionResult) (attached : IDataView) :
  be_execute be e = Fulfilled result ->
  be_readWindow be result (0, 0) (pageSize p, COLS_PER_PAGE)
    = Rejected (NoDataError (Some attached)) ->
  abandoned_when_readWindow_settles s = false ->
  let r := session be s e c p in
  fst r = Fulfilled undefined
  /\ callbacks_after_settlement (log (snd r)) =
       [config_pushData
          {| dataView := None;
             availableDrillTargets :=
               getAvailableDrillTargets (DataViewFacade_for attached) |};
        config_onLoadingChanged false;
        config_onError (convertError (NoDataError (Some attached))) e]
  /\ count is_pushData (log (snd r)) = 1
  /\ count is_onError (log (snd r)) = 1.
Proof.
  intros Hexec Hread Hclear r. subst r.
  fix_schedule s. destruct after; play; repeat split.
Qed.

(** C8: when [execute] rejects, [readWindow] is never invoked and the promise
    resolves with [undefined].  If the flag is clear at that point, the
    rejection handler calls [onError] once with the converted error and the
    execution handle and nothing else; if it is set, the handler calls
    nothing and the resolved value is the no-result value. *)
Theorem execute_rejects (be : Backend) (s : Schedule)
    (e : IPreparedExecution) (c : TableConfig) (p : ICorePivotTableProps)
    (reason : JsError) :
  be_execute be e = Rejected reason ->
  let r := session be s e c p in
  count is_readWindow_called (log (snd r)) = 0
  /\ backend_calls (log (snd r)) = [execute_called e]
  /\ (abandoned_when_execute_settles s = false ->
        fst r = Fulfilled undefined
        /\ callbacks_after_settlement (log (snd r)) =
             [config_onError (convertError reason) e]
        /\ callbacks (log (snd r)) =
             [config_onLoadingChanged true;
              config_onError (convertError reason) e]
        /\ count is_onError (log (snd r)) = 1)
  /\ (abandoned_when_execute_settles s = true ->
        fst r = Fulfilled NONE
        /\ callbacks_after_settlement (log (snd r)) = []
        /\ callbacks (log (snd r)) = [config_onLoadingChanged true]).
Proof.
  intros Hexec r. subst r.
  destruct s as [[] [] [] []]; play; repeat split; congruence.
Qed.

(** ** Terminal outcomes *)

Lemma abandoned_session_resolves_NONE (be : Backend) (s : Schedule)
    (e : IPreparedExecution) (c : TableConfig) (p : ICorePivotTableProps) :
  abandoned_when_last_handler_runs be s e = true ->
  fst (session be s e c p) = Fulfilled NONE
  /\ count is_onError (log (snd (session be s e c p))) = 0.
Proof.
  unfold abandoned_when_last_handler_runs. intros Hset.
  destruct (be_execute be e) as [result | reason] eqn:Hexec;
    destruct s as [[] [] [] []]; cbn in Hset; try discriminate Hset;
    play; split; reflexivity.
Qed.

Lemma failed_session_resolves_undefined (be : Backend) (s : Schedule)
    (e : IPreparedExecution) (c : TableConfig) (p : ICorePivotTableProps) :
  abandoned_when_last_handler_runs be s e = false ->
  a_step_rejects be e p = true ->
  fst (session be s e c p) = Fulfilled undefined
  /\ count is_onError (log (snd (session be s e c p))) = 1.
Proof.
  unfold abandoned_when_last_handler_runs, a_step_rejects. intros Hclear Hrej.
  destruct (be_execute be e) as [result | reason] eqn:Hexec.
  - destruct (be_readWindow be result (0, 0) (pageSize p, COLS_PER_PAGE))
      as [dataView | reason] eqn:Hread; [discriminate Hrej |].
    fix_schedule s. destruct after; play; split; reflexivity.
  - fix_schedule s. destruct reading, after; play; split; reflexivity.
Qed.

Ltac refute :=
  let H := fresh "H" in
  intro H;
  repeat match type of H with
         | exists _, _ => destruct H as [? H]
         | _ /\ _ => let H' := fresh "H" in destruct H as [H' H]; try congruence
         end;
  congruence.

Ltac classify :=
  unfold resolves_with_facade, resolves_undefined_after_error,
    resolves_NONE_after_abandon, NONE, undefined; cbn;
  first
    [ left; split; [eexists; split; reflexivity | split; refute]
    | right; left; split; [refute | split; [split; reflexivity | refute]]
    | right; right; split; [refute | split; [refute | repeat split]] ].

(** C1: whatever the two backend promises do and wherever the owner calls
    [abandon], the promise returned by [initialize] is fulfilled, never
    rejected, and exactly one of the three terminal outcomes occurs: a facade,
    [undefined] after a reported error, or the no-result value after an
    abandonment. *)
Theorem exactly_one_terminal_outcome (be : Backend) (s : Schedule)
    (e : IPreparedExecution) (c : TableConfig) (p : ICorePivotTableProps) :
  let r := session be s e c p in
  (exists value, fst r = Fulfilled value)
  /\ (forall reason, fst r <> Rejected reason)
  /\ ((resolves_with_facade r
       /\ ~ resolves_undefined_after_error r /\ ~ resolves_NONE_after_abandon r)
      \/ (~ resolves_with_facade r
          /\ resolves_undefined_after_error r /\ ~ resolves_NONE_after_abandon r)
      \/ (~ resolves_with_facade r
          /\ ~ resolves_undefined_after_error r /\ resolves_NONE_after_abandon r)).
Proof.
  intros r. subst r.
  destruct s as [[] [] [] []]; play;
    (split; [eexists; reflexivity | split; [intros ?; discriminate |]]);
    classify.
Qed.

(** C10: the resolved value of an abandoned initialization and the resolved
    value of a failed one are the same [undefined], the only value of the
    result type besides a facade; the two sessions differ in whether [onError]
    was called, not in what the promise resolves with. *)
Theorem abandoned_and_failed_resolve_alike
    (be1 be2 : Backend) (s1 s2 : Schedule) (e1 e2 : IPreparedExecution)
    (c1 c2 : TableConfig) (p1 p2 : ICorePivotTableProps) :
  abandoned_when_last_handler_runs be1 s1 e1 = true ->
  abandoned_when_last_handler_runs be2 s2 e2 = false ->
  a_step_rejects be2 e2 p2 = true ->
  let abandoned_one := session be1 s1 e1 c1 p1 in
  let failed_one := session be2 s2 e2 c2 p2 in
  fst abandoned_one = fst failed_one
  /\ fst abandoned_one = Fulfilled NONE
  /\ fst failed_one = Fulfilled undefined
  /\ NONE = undefined
  /\ count is_onError (log (snd abandoned_one)) = 0
  /\ count is_onError (log (snd failed_one)) = 1.
Proof.
  intros Hset Hclear Hrej abandoned_one failed_one.
  destruct (abandoned_session_resolves_NONE be1 s1 e1 c1 p1 Hset) as [Ha Hna].
  destruct (failed_session_resolves_undefined be2 s2 e2 c2 p2 Hclear Hrej)
    as [Hf Hnf].
  subst abandoned_one failed_one. rewrite Ha, Hf. repeat split; assumption.
Qed.

(** ** What a session resolves with and reports, in general *)

(** X1: the promise of [initialize] resolves with a facade exactly when both
    backend steps resolve and the flag is clear when the read settles; the
    facade then holds that result, that data view, the config and the props.
    In every other case it resolves with [undefined]. *)
Theorem resolved_value (be : Backend) (s : Schedule)
    (e : IPreparedExecution) (c : TableConfig) (p : ICorePivotTableProps) :
  fst (session be s e c p) =
    Fulfilled
      match be_execute be e with
      | Fulfilled result =>
          match be_readWindow be result (0, 0) (pageSize p, COLS_PER_PAGE) with
          | Fulfilled dataView =>
              if abandoned_when_readWindow_settles s then undefined
              else Some {| tf_result := result; tf_dataView := dataView;
                           tf_config := c; tf_props := p |}
          | Rejected _ => undefined
          end
      | Rejected _ => undefined
      end.
Proof.
  destruct s as [[] [] [] []]; play; reflexivity.
Qed.

(** X2: [onError] is called once when a backend step rejects and the flag is
    clear at the handler of that rejection, and never otherwise; whenever it
    is called it is given the execution handle of the instance. *)
Theorem onError_exactly_on_unabandoned_failure (be : Backend) (s : Schedule)
    (e : IPreparedExecution) (c : TableConfig) (p : ICorePivotTableProps) :
  let w := snd (session be s e c p) in
  count is_onError (log w) =
    (if a_step_rejects be e p && negb (abandoned_when_last_handler_runs be s e)
     then 1 else 0)
  /\ Forall (fun ev => forall error x, ev = config_onError error x -> x = e)
            (events (log w)).
Proof.
  unfold a_step_rejects, abandoned_when_last_handler_runs.
  destruct s as [[] [] [] []]; play;
    (split; [reflexivity |]);
    repeat constructor; intros error x Hev; congruence.
Qed.

(** X3: when the read rejects with an error that is neither an unexpected
    response nor a no-data error carrying a data view (a no-data error
    without one, or any other error) and the flag is clear, the handler
    calls [onError] with the converted error and nothing else: no [pushData]
    and no [onLoadingChanged(false)]. *)
Theorem plain_read_rejection (be : Backend) (s : Schedule)
    (e : IPreparedExecution) (c : TableConfig) (p : ICorePivotTableProps)
    (result : IExecutionResult) (reason : JsError) :
  be_execute be e = Fulfilled result ->
  be_readWindow be result (0, 0) (pageSize p, COLS_PER_PAGE) = Rejected reason ->
  isUnexpectedResponseError reason = false ->
  (if isNoDataError reason then error_dataView reason else None) = None ->
  abandoned_when_readWindow_settles s = false ->
  let r := session be s e c p in
  fst r = Fulfilled undefined
  /\ callbacks_after_settlement (log (snd r)) =
       [config_onError (convertError reason) e]
  /\ count is_pushData (log (snd r)) = 0
  /\ count (is_onLoadingChanged false) (log (snd r)) = 0.
Proof.
  intros Hexec Hread Hkind Hview Hclear r. subst r.
  fix_schedule s.
  destruct reason as [[attached |] | | message | message];
    cbn in Hkind, Hview; try discriminate;
    destruct after; play; repeat split.
Qed.

(** X5: when the owner abandons while [readWindow] is pending, after
    [execute] resolved, the read still settles, no callback follows, and the
    promise resolves with the no-result value whatever the read brought. *)
Theorem abandoned_while_reading (be : Backend) (s : Schedule)
    (e : IPreparedExecution) (c : TableConfig) (p : ICorePivotTableProps)
    (result : IExecutionResult) :
  be_execute be e = Fulfilled result ->
  before_initialize s = false ->
  while_executing s = false ->
  while_reading s = true ->
  let r := session be s e c p in
  fst r = Fulfilled NONE
  /\ callbacks (log (snd r)) = [config_onLoadingChanged true]
  /\ events (log (snd r)) =
       [config_onLoadingChanged true;
        execute_called e;
        execute_settled (Fulfilled result);
        readWindow_called result (0, 0) (pageSize p, COLS_PER_PAGE);
        owner_abandon true;
        readWindow_settled
          (be_readWindow be result (0, 0) (pageSize p, COLS_PER_PAGE))]
       ++ (if after_settled s then [owner_abandon false] else []).
Proof.
  intros Hexec Hbefore Hexecuting Hreading r. subst r.
  destruct s as [before executing reading after].
  cbn in Hbefore, Hexecuting, Hreading. subst.
  destruct after; play; repeat split.
Qed.

Lemma session_as_plain (be : Backend) (s : Schedule)
    (e : IPreparedExecution) (c : TableConfig) (p : ICorePivotTableProps) :
  let plain := plain_schedule (abandoned_when_last_handler_runs be s e) in
  fst (session be s e c p) = fst (session be plain e c p)
  /\ callbacks (log (snd (session be s e c p)))
     = callbacks (log (snd (session be plain e c p)))
  /\ backend_calls (log (snd (session be s e c p)))
     = backend_calls (log (snd (session be plain e c p))).
Proof.
  unfold abandoned_when_last_handler_runs, plain_schedule.
  destruct s as [[] [] [] []]; play; repeat split.
Qed.

(** X6: what the owner's schedule changes is only the flag that the last
    handler finds.  Two schedules that agree on it give the same resolved
    value, the same callbacks in the same order and the same backend calls;
    in particular an [abandon] after the chain has settled, or a second
    [abandon] that throws, changes nothing. *)
Theorem schedule_matters_through_flag_only (be : Backend) (s1 s2 : Schedule)
    (e : IPreparedExecution) (c : TableConfig) (p : ICorePivotTableProps) :
  abandoned_when_last_handler_runs be s1 e
    = abandoned_when_last_handler_runs be s2 e ->
  fst (session be s1 e c p) = fst (session be s2 e c p)
  /\ callbacks (log (snd (session be s1 e c p)))
     = callbacks (log (snd (session be s2 e c p)))
  /\ backend_calls (log (snd (session be s1 e c p)))
     = backend_calls (log (snd (session be s2 e c p))).
Proof.
  intros Hsame.
  destruct (session_as_plain be s1 e c p) as [Hv1 [Hc1 Hb1]].
  destruct (session_as_plain be s2 e c p) as [Hv2 [Hc2 Hb2]].
  cbv zeta in *. rewrite Hsame in *.
  rewrite Hv1, Hv2, Hc1, Hc2, Hb1, Hb2. repeat split.
Qed.

(** X7: every [initialize] call announces loading exactly once, as its first
    act and before the backend is touched, also on an instance that was
    abandoned beforehand. *)
Theorem loading_announced_first (be : Backend) (s : Schedule)
    (e : IPreparedExecution) (c : TableConfig) (p : ICorePivotTableProps) :
  let w := snd (session be s e c p) in
  count (is_onLoadingChanged true) (log w) = 1
  /\ exists rest,
       events (log w) =
         (if before_initialize s then [owner_abandon true] else [])
         ++ [config_onLoadingChanged true; execute_called e] ++ rest.
Proof.
  destruct s as [[] [] [] []]; play;
    (split; [reflexivity | eexists; reflexivity]).
Qed.

(** X8: [onLoadingChanged(false)] is called once when the flag is clear at
    the last handler and either both steps resolved or the read rejected
    with a no-data error carrying a data view; it is never called on an
    [execute] rejection, on any other read rejection, or once abandoned. *)
Theorem loading_end_announced (be : Backend) (s : Schedule)
    (e : IPreparedExecution) (c : TableConfig) (p : ICorePivotTableProps) :
  count (is_onLoadingChanged false) (log (snd (session be s e c p))) =
    (if negb (abandoned_when_last_handler_runs be s e)
        && (negb (a_step_rejects be e p) || read_rejects_with_view be e p)
     then 1 else 0).
Proof.
  unfold a_step_rejects, abandoned_when_last_handler_runs, read_rejects_with_view.
  destruct s as [[] [] [] []]; play; reflexivity.
Qed.

(** X9: [onExportReady] is called once in a session that resolves with a
    facade, with the export function of that facade and the export title,
    and never in any other session. *)
Theorem export_ready_only_with_facade (be : Backend) (s : Schedule)
    (e : IPreparedExecution) (c : TableConfig) (p : ICorePivotTableProps) :
  let r := session be s e c p in
  filter is_onExportReady (events (log (snd r))) =
    match fst r with
    | Fulfilled (Some table) =>
        [config_onExportReady (createExportFunction table (exportTitle p))]
    | _ => []
    end.
Proof.
  destruct s as [[] [] [] []]; play; reflexivity.
Qed.

End Properties.

(** * Concrete runs *)

Import Sample.
#[local] Existing Instance domain.
#[local] Existing Instance collaborators.

Lemma abandon_once_witness :
  abandoned (new_TableFacadeInitializer the_execution the_config props_with_pushData)
    = false
  /\ exists i',
       abandon (new_TableFacadeInitializer the_execution the_config props_with_pushData)
         = inr i'
       /\ abandoned i' = true
       /\ abandon i' = inl Invariant_Violation.
Proof.
  split; [reflexivity |].
  destruct (abandon_once
              (new_TableFacadeInitializer the_execution the_config props_with_pushData))
    as [Hfirst _].
  destruct (Hfirst eq_refl) as [i' [Hcall [Hflag [_ [_ [_ Hagain]]]]]].
  exists i'. repeat split; assumption.
Defined.

Lemma success_path_witness :
  be_execute (backend_reading (Fulfilled the_view)) the_execution
    = Fulfilled the_result
  /\ be_readWindow (backend_reading (Fulfilled the_view)) the_result (0, 0)
       (pageSize props_with_pushData, COLS_PER_PAGE) = Fulfilled the_view
  /\ abandoned_when_readWindow_settles never = false
  /\ fst (session (backend_reading (Fulfilled the_view)) never
            the_execution the_config props_with_pushData)
     = Fulfilled (Some {| tf_result := the_result; tf_dataView := the_view;
                          tf_config := the_config;
                          tf_props := props_with_pushData |}).
Proof.
  repeat (split; [reflexivity |]).
  destruct (success_path (backend_reading (Fulfilled the_view)) never
              the_execution the_config props_with_pushData
              (result := the_result) eq_refl) as [_ Hread].
  destruct (Hread the_view eq_refl eq_refl) as [Hvalue _].
  exact Hvalue.
Defined.

Lemma abandoned_while_executing_witness :
  before_initialize abandon_while_executing = false
  /\ while_executing abandon_while_executing = true
  /\ callbacks (log (snd (session (backend_reading (Fulfilled the_view))
                            abandon_while_executing
                            the_execution the_config props_with_pushData)))
     = [config_onLoadingChanged true].
Proof.
  repeat (split; [reflexivity |]).
  destruct (abandoned_while_executing (backend_reading (Fulfilled the_view))
              abandon_while_executing the_execution the_config
              props_with_pushData eq_refl eq_refl) as [_ [Hcallbacks _]].
  exact Hcallbacks.
Defined.


Lemma unexpected_response_without_props_pushData_witness :
  pushData props_without_pushData = None
  /\ be_execute (backend_reading (Rejected UnexpectedResponseError)) the_execution
     = Fulfilled the_result
  /\ be_readWindow (backend_reading (Rejected UnexpectedResponseError)) the_result
       (0, 0) (pageSize props_without_pushData, COLS_PER_PAGE)
     = Rejected UnexpectedResponseError
  /\ abandoned_when_readWindow_settles never = false
  /\ count is_config_pushData
       (log (snd (session (backend_reading (Rejected UnexpectedResponseError))
                    never the_execution the_config props_without_pushData))) = 0.
Proof.
  repeat (split; [reflexivity |]).
  destruct (unexpected_response_without_props_pushData
              (backend_reading (Rejected UnexpectedResponseError)) never
              the_execution the_config props_without_pushData
              (result := the_result) eq_refl eq_refl eq_refl eq_refl)
    as [_ [_ [Hnone _]]].
  exact Hnone.
Defined.

Lemma no_data_with_data_view_witness :
  be_execute (backend_reading (Rejected (NoDataError (Some the_view)))) the_execution
    = Fulfilled the_result
  /\ be_readWindow (backend_reading (Rejected (NoDataError (Some the_view))))
       the_result (0, 0) (pageSize props_with_pushData, COLS_PER_PAGE)
     = Rejected (NoDataError (Some the_view))
  /\ abandoned_when_readWindow_settles never = false
  /\ callbacks_after_settlement
       (log (snd (session (backend_reading (Rejected (NoDataError (Some the_view))))
                    never the_execution the_config props_with_pushData)))
     = [config_pushData {| dataView := None;
                           availableDrillTargets := ("view", the_view) |};
        config_onLoadingChanged false;
        config_onError "NO_DATA" the_execution].
Proof.
  repeat (split; [reflexivity |]).
  destruct (no_data_with_data_view
              (backend_reading (Rejected (NoDataError (Some the_view)))) never
              the_execution the_config props_with_pushData
              (result := the_result) (attached := the_view)
              eq_refl eq_refl eq_refl) as [_ [Hcallbacks _]].
  exact Hcallbacks.
Defined.

Lemma execute_rejects_witness :
  be_execute (backend_failing (OtherError "timeout")) the_execution
    = Rejected (OtherError "timeout")
  /\ abandoned_when_execute_settles never = false
  /\ callbacks (log (snd (session (backend_failing (OtherError "timeout")) never
                            the_execution the_config props_with_pushData)))
     = [config_onLoadingChanged true; config_onError "timeout" the_execution].
Proof.
  repeat (split; [reflexivity |]).
  destruct (execute_rejects (backend_failing (OtherError "timeout")) never
              the_execution the_config props_with_pushData eq_refl)
    as [_ [_ [Hclear _]]].
  destruct (Hclear eq_refl) as [_ [_ [Hcallbacks _]]].
  exact Hcallbacks.
Defined.

(** C9 (counterexample): when [execute] rejects, [readWindow] is not invoked
    once but never. *)
Lemma readWindow_not_called_when_execute_rejects :
  count is_readWindow_called
    (log (snd (session (backend_failing (OtherError "timeout")) never
                 the_execution the_config props_with_pushData))) <> 1.
Proof.
  cbn. discriminate.
Qed.

Lemma abandoned_and_failed_resolve_alike_witness :
  abandoned_when_last_handler_runs (backend_reading (Fulfilled the_view))
    abandon_while_reading the_execution = true
  /\ abandoned_when_last_handler_runs (backend_failing (OtherError "timeout"))
       never the_execution = false
  /\ a_step_rejects (backend_failing (OtherError "timeout")) the_execution
       props_with_pushData = true
  /\ fst (session (backend_reading (Fulfilled the_view)) abandon_while_reading
            the_execution the_config props_with_pushData)
     = fst (session (backend_failing (OtherError "timeout")) never
              the_execution the_config props_with_pushData).
Proof.
  repeat (split; [reflexivity |]).
  exact (proj1 (abandoned_and_failed_resolve_alike
                  (backend_reading (Fulfilled the_view))
                  (backend_failing (OtherError "timeout"))
                  abandon_while_reading never the_execution the_execution
                  the_config the_config props_with_pushData props_with_pushData
                  eq_refl eq_refl eq_refl)).
Defined.

(** * Properties of the other components *)

(** ** DashboardTester *)


Section TesterFacts.
Import DashboardTester.
Variable Payload : Type.
Variable inherited : string -> bool.

Lemma lookup_assign_same key v (r : list (string * MonitoredAction)) :
  lookup key (assign key v r) = Some v.
Proof.
  induction r as [| [k v'] r IH]; cbn.
  - now rewrite String.eqb_refl.
  - destruct (String.eqb k key) eqn:E; cbn; rewrite E; auto.
Qed.

Lemma lookup_assign_other key key' v (r : list (string * MonitoredAction)) :
  key' <> key -> lookup key' (assign key v r) = lookup key' r.
Proof.
  intros Hne. induction r as [| [k v'] r IH]; cbn.
  - destruct (String.eqb_spec key key'); congruence.
  - destruct (String.eqb_spec k key); cbn.
    + subst. destruct (String.eqb_spec key key'); congruence.
    + destruct (String.eqb_spec k key'); auto.
Qed.

Lemma resolve_promise_length id (a : (PayloadAction Payload)) ps :
  List.length (resolve_promise id a ps) = List.length ps.
Proof.
  revert id. induction ps as [| p ps IH]; intros [| id]; cbn; auto.
  - destruct p; reflexivity.
  - destruct p; cbn; now rewrite IH.
Qed.

Lemma resolve_promise_same id (a : (PayloadAction Payload)) ps :
  id < List.length ps ->
  nth id (resolve_promise id a ps) None =
    match nth id ps None with Some first => Some first | None => Some a end.
Proof.
  revert id. induction ps as [| p ps IH]; intros [| id] Hlt; cbn in *; try lia.
  - destruct p; reflexivity.
  - destruct p; cbn; apply IH; lia.
Qed.

Lemma resolve_promise_other id id' (a : (PayloadAction Payload)) ps :
  id' <> id -> nth id' (resolve_promise id a ps) None = nth id' ps None.
Proof.
  revert id id'. induction ps as [| p ps IH]; intros [| id] [| id'] Hne; cbn;
    try congruence; try (destruct p; reflexivity).
  - destruct p; cbn; apply IH; congruence.
Qed.

Lemma nth_app_pending id (ps : list (option (PayloadAction Payload))) :
  nth id (ps ++ [None]) None = nth id ps None.
Proof.
  destruct (Nat.lt_ge_cases id (List.length ps)) as [Hlt | Hge].
  - now rewrite app_nth1.
  - rewrite app_nth2 by lia. rewrite (nth_overflow ps) by lia.
    destruct (id - List.length ps) as [| [| k]]; reflexivity.
Qed.

Lemma find_app_one ty (l : list (PayloadAction Payload)) a :
  find (has_type ty) (l ++ [a]) =
    match find (has_type ty) l with
    | Some first => Some first
    | None => if has_type ty a then Some a else None
    end.
Proof.
  induction l as [| b l IH]; cbn.
  - destruct (has_type ty a); reflexivity.
  - destruct (has_type ty b); auto.
Qed.

Lemma count_type_app_one ty (l : list (PayloadAction Payload)) a :
  count_type ty (l ++ [a]) = count_type ty l + (if has_type ty a then 1 else 0).
Proof.
  unfold count_type. rewrite filter_app, length_app. cbn.
  destruct (has_type ty a); reflexivity.
Qed.

Lemma count_type_zero_find ty (l : list (PayloadAction Payload)) :
  count_type ty l = 0 -> find (has_type ty) l = None.
Proof.
  unfold count_type. induction l as [| b l IH]; cbn; auto.
  destruct (has_type ty b); cbn; [discriminate | auto].
Qed.

Lemma has_type_own (a : (PayloadAction Payload)) : has_type (type a) a = true.
Proof. apply String.eqb_refl. Qed.

Lemma has_type_other ty (a : (PayloadAction Payload)) :
  ty <> type a -> has_type ty a = false.
Proof.
  intros Hne. unfold has_type. destruct (String.eqb_spec (type a) ty); congruence.
Qed.

Lemma consistent_new : consistent inherited (new_DashboardTester Payload).
Proof.
  split; cbn; [reflexivity | discriminate].
Qed.

(** On a name that is not inherited the method finds or creates a monitor. *)
Lemma getOrCreate_spec ty (t : (Tester Payload)) :
  consistent inherited t ->
  inherited ty = false ->
  exists m t',
    getOrCreateMonitoredAction inherited ty t = (Some m, t')
    /\ consistent inherited t'
    /\ lookup ty (monitoredActions t') = Some m
    /\ capturedActions t' = capturedActions t.
Proof.
  intros [Hentries Hinj] Hown. unfold getOrCreateMonitoredAction, read.
  destruct (lookup ty (monitoredActions t)) as [m |] eqn:Hty.
  - exists m, t. repeat split; auto.
  - rewrite Hown. eexists. eexists. split; [reflexivity |].
    split; [| split; [apply lookup_assign_same | reflexivity]].
    split; cbn [monitoredActions capturedActions promises].
    + intros ty'. destruct (String.eqb_spec ty' ty) as [-> | Hne].
      * rewrite lookup_assign_same. cbn [calls promise].
        rewrite length_app. cbn [List.length].
        specialize (Hentries ty). rewrite Hty in Hentries.
        specialize (Hentries Hown).
        repeat split; [assumption | lia | exact (eq_sym Hentries) |].
        unfold settled_with. cbn [promises]. rewrite nth_app_pending.
        rewrite nth_overflow by lia. symmetry.
        now apply count_type_zero_find.
      * rewrite lookup_assign_other by assumption.
        specialize (Hentries ty').
        destruct (lookup ty' (monitoredActions t)) as [m' |]; auto.
        destruct Hentries as [Hnot [Hlt [Hcalls Hfirst]]].
        rewrite length_app. cbn [List.length].
        repeat split; [assumption | lia | assumption |].
        unfold settled_with in *. cbn [promises]. now rewrite nth_app_pending.
    + intros ty1 ty2 m1 m2.
      destruct (String.eqb_spec ty1 ty) as [-> | Hne1];
        destruct (String.eqb_spec ty2 ty) as [-> | Hne2]; auto;
        rewrite ?lookup_assign_same, ?lookup_assign_other by assumption.
      * intros H1 H2 Heq. injection H1 as <-. cbn in Heq.
        specialize (Hentries ty2). rewrite H2 in Hentries. lia.
      * intros H1 H2 Heq. injection H2 as <-. cbn in Heq.
        specialize (Hentries ty1). rewrite H1 in Hentries. lia.
      * apply Hinj.
Qed.

(** On an inherited name it returns the inherited value and creates
    nothing. *)
Lemma getOrCreate_inherited ty (t : (Tester Payload)) :
  consistent inherited t ->
  inherited ty = true ->
  getOrCreateMonitoredAction inherited ty t = (None, t).
Proof.
  intros [Hentries _] Hin. unfold getOrCreateMonitoredAction, read.
  specialize (Hentries ty).
  destruct (lookup ty (monitoredActions t)) as [m |].
  - destruct Hentries as [Hnot _]. congruence.
  - now rewrite Hin.
Qed.

(** [getOrCreateMonitoredAction] does not look at the captured actions. *)
Lemma getOrCreate_after_push ty (a : PayloadAction Payload) (t : (Tester Payload)) :
  getOrCreateMonitoredAction inherited ty
    {| monitoredActions := monitoredActions t;
       capturedActions := capturedActions t ++ [a];
       promises := promises t |}
  = let r := getOrCreateMonitoredAction inherited ty t in
    (fst r,
     {| monitoredActions := monitoredActions (snd r);
        capturedActions := capturedActions (snd r) ++ [a];
        promises := promises (snd r) |}).
Proof.
  unfold getOrCreateMonitoredAction, read. cbn [monitoredActions].
  destruct (lookup ty (monitoredActions t)); [reflexivity |].
  destruct (inherited ty); reflexivity.
Qed.

Lemma onActionCaptured_unfold (a : (PayloadAction Payload)) (t : (Tester Payload)) :
  onActionCaptured inherited a t =
    let r := getOrCreateMonitoredAction inherited (type a) t in
    match fst r with
    | Some m =>
        (returned,
         {| monitoredActions :=
              assign (type a) {| calls := calls m + 1; promise := promise m |}
                (monitoredActions (snd r));
            capturedActions := capturedActions (snd r) ++ [a];
            promises := resolve_promise (promise m) a (promises (snd r)) |})
    | None =>
        (threw_TypeError,
         {| monitoredActions := monitoredActions (snd r);
            capturedActions := capturedActions (snd r) ++ [a];
            promises := promises (snd r) |})
    end.
Proof.
  unfold onActionCaptured. rewrite getOrCreate_after_push. cbv zeta.
  destruct (getOrCreateMonitoredAction inherited (type a) t) as [[m |] t2];
    reflexivity.
Qed.

Lemma push_consistent_inherited (a : PayloadAction Payload) (t : Tester Payload) :
  consistent inherited t ->
  inherited (type a) = true ->
  consistent inherited
    {| monitoredActions := monitoredActions t;
       capturedActions := capturedActions t ++ [a];
       promises := promises t |}.
Proof.
  intros [Hentries Hinj] Hin. split; cbn [monitoredActions capturedActions promises];
    [| exact Hinj].
  intros ty. specialize (Hentries ty).
  assert (Hother : inherited ty = false -> has_type ty a = false).
  { intros Hnot. apply has_type_other. intros ->. congruence. }
  destruct (lookup ty (monitoredActions t)) as [m |].
  - destruct Hentries as [Hnot [Hlt [Hcalls Hfirst]]].
    rewrite count_type_app_one, find_app_one, (Hother Hnot).
    repeat split; [assumption | assumption | lia |].
    unfold settled_with in *. cbn [promises]. rewrite Hfirst.
    destruct (find (has_type ty) (capturedActions t)); reflexivity.
  - intros Hnot. rewrite count_type_app_one, (Hother Hnot).
    rewrite (Hentries Hnot). reflexivity.
Qed.

Lemma onActionCaptured_consistent (a : (PayloadAction Payload)) (t : (Tester Payload)) :
  consistent inherited t -> consistent inherited (snd (onActionCaptured inherited a t)).
Proof.
  intros Ht. rewrite onActionCaptured_unfold. cbv zeta.
  destruct (inherited (type a)) eqn:Hin.
  - rewrite (getOrCreate_inherited Ht Hin). cbn [fst snd].
    now apply push_consistent_inherited.
  - destruct (getOrCreate_spec Ht Hin) as [m0 [t2 [Hgoc [[Hentries Hinj] [Hown Hsame]]]]].
    rewrite Hgoc. cbn [fst snd].
    split; cbn [monitoredActions capturedActions promises].
    + intros ty. destruct (String.eqb_spec ty (type a)) as [-> | Hne].
      * rewrite lookup_assign_same. cbn [calls promise].
        specialize (Hentries (type a)). rewrite Hown in Hentries.
        destruct Hentries as [Hnot [Hlt [Hcalls Hfirst]]].
        rewrite resolve_promise_length, count_type_app_one, has_type_own.
        repeat split; [assumption | assumption | lia |].
        unfold settled_with in *. cbn [promises].
        rewrite resolve_promise_same by assumption.
        rewrite find_app_one, has_type_own, Hfirst. reflexivity.
      * rewrite lookup_assign_other by assumption.
        specialize (Hentries ty).
        rewrite count_type_app_one, find_app_one, has_type_other by assumption.
        destruct (lookup ty (monitoredActions t2)) as [m |] eqn:Hty.
        -- destruct Hentries as [Hnot [Hlt [Hcalls Hfirst]]].
           rewrite resolve_promise_length.
           repeat split; [assumption | assumption | lia |].
           unfold settled_with in *. cbn [promises].
           rewrite resolve_promise_other.
           ++ rewrite Hfirst.
              destruct (find (has_type ty) (capturedActions t2)); reflexivity.
           ++ intros Heq. apply Hne. exact (Hinj _ _ _ _ Hty Hown Heq).
        -- intros Hnot. specialize (Hentries Hnot). lia.
    + intros ty1 ty2 m1 m2.
      destruct (String.eqb_spec ty1 (type a)) as [-> | Hne1];
        destruct (String.eqb_spec ty2 (type a)) as [-> | Hne2]; auto;
        rewrite ?lookup_assign_same, ?lookup_assign_other by assumption.
      * intros H1 H2 Heq. injection H1 as <-. cbn in Heq.
        symmetry. exact (Hinj _ _ _ _ H2 Hown (eq_sym Heq)).
      * intros H1 H2 Heq. injection H2 as <-. cbn in Heq.
        exact (Hinj _ _ _ _ H1 Hown Heq).
      * apply Hinj.
Qed.

Lemma middleware_state {R : Type} (next : PayloadAction Payload -> R)
    (a : PayloadAction Payload) (t : Tester Payload) :
  snd (testerMiddleware inherited next a t)
  = if String.prefix "@@redux/" (type a) then t
    else snd (onActionCaptured inherited a t).
Proof.
  unfold testerMiddleware. destruct (String.prefix "@@redux/" (type a));
    [reflexivity |].
  destruct (onActionCaptured inherited a t) as [[|] t']; reflexivity.
Qed.

Lemma waitFor_state ty (t : Tester Payload) :
  snd (waitFor inherited ty t) = snd (getOrCreateMonitoredAction inherited ty t).
Proof.
  unfold waitFor.
  destruct (getOrCreateMonitoredAction inherited ty t) as [[m |] t']; reflexivity.
Qed.

Lemma step_consistent (t : (Tester Payload)) (op : Op Payload) :
  consistent inherited t -> consistent inherited (step inherited t op).
Proof.
  intros Ht. destruct op as [a | ty |]; cbn [step].
  - rewrite middleware_state.
    destruct (String.prefix "@@redux/" (type a));
      auto using onActionCaptured_consistent.
  - rewrite waitFor_state. destruct (inherited ty) eqn:Hin.
    + now rewrite (getOrCreate_inherited Ht Hin).
    + destruct (getOrCreate_spec Ht Hin) as [m [t' [-> [Hc _]]]]. exact Hc.
  - split; cbn; [intros ty Hnot; reflexivity | discriminate].
Qed.

Lemma exec_consistent (ops : list (Op Payload)) (t : (Tester Payload)) :
  consistent inherited t -> consistent inherited (exec inherited ops t).
Proof.
  revert t. induction ops as [| op ops IH]; intros t Ht; cbn; auto.
  apply IH. now apply step_consistent.
Qed.

Lemma getOrCreate_captured ty (t : Tester Payload) :
  capturedActions (snd (getOrCreateMonitoredAction inherited ty t))
  = capturedActions t.
Proof.
  unfold getOrCreateMonitoredAction, read.
  destruct (lookup ty (monitoredActions t)); [reflexivity |].
  destruct (inherited ty); reflexivity.
Qed.

Lemma exec_captured (ops : list (Op Payload)) (t : (Tester Payload)) :
  capturedActions (exec inherited ops t) = captured_by ops (capturedActions t).
Proof.
  revert t. induction ops as [| op ops IH]; intros t; cbn [exec captured_by]; auto.
  rewrite IH. destruct op as [a | ty |]; cbn [step]; f_equal.
  - rewrite middleware_state.
    destruct (String.prefix "@@redux/" (type a)); [reflexivity |].
    rewrite onActionCaptured_unfold. cbv zeta.
    rewrite <- (getOrCreate_captured (type a) t).
    destruct (fst (getOrCreateMonitoredAction inherited (type a) t)); reflexivity.
  - rewrite waitFor_state. apply getOrCreate_captured.
Qed.

(** X10: after any sequence of operations on a fresh tester, the captured
    actions are the actions that passed the middleware since the last reset,
    in order and without those whose type starts with "@@redux/".  For an
    action type that a plain object does not inherit, the [calls] counter is
    the number of captured actions of that type (0 without monitor).  For an
    inherited name such as "constructor" no monitor ever exists, and the
    middleware, having captured the action, throws instead of passing it
    on. *)
Theorem calls_count_captured (ops : list (Op Payload)) (ty : string)
    (R : Type) (next : PayloadAction Payload -> R) (a : PayloadAction Payload) :
  let t := exec inherited ops (new_DashboardTester Payload) in
  capturedActions t = captured_by ops []
  /\ (if inherited ty
      then lookup ty (monitoredActions t) = None
      else calls_of ty t = count_type ty (captured_by ops []))
  /\ fst (testerMiddleware inherited next a t)
     = (if negb (String.prefix "@@redux/" (type a)) && inherited (type a)
        then None else Some (next a)).
Proof.
  intros t. subst t.
  pose proof (exec_captured ops (new_DashboardTester Payload)) as Hcap.
  cbn in Hcap. split; [exact Hcap |]. rewrite <- Hcap.
  pose proof (exec_consistent ops consistent_new) as Ht.
  split.
  - destruct Ht as [Hentries _]. specialize (Hentries ty). unfold calls_of.
    destruct (inherited ty), (lookup ty _) as [m |]; intuition congruence.
  - unfold testerMiddleware.
    destruct (String.prefix "@@redux/" (type a)); [reflexivity |].
    rewrite onActionCaptured_unfold. cbv zeta. cbn [negb andb].
    destruct (inherited (type a)) eqn:Hin.
    + now rewrite (getOrCreate_inherited Ht Hin).
    + destruct (getOrCreate_spec Ht Hin) as [m [t' [-> _]]]. reflexivity.
Qed.

(** X11: for an action type that a plain object does not inherit, the
    monitored promise that [waitFor] races against its timeout is already
    fulfilled exactly when an action of that type was captured since the
    last reset, and then with the first such action, not the latest.  For an
    inherited name such as "toString" there is no monitored promise: the
    race is entered with [undefined] and is won by it at once. *)
Theorem waitFor_first_captured (ops : list (Op Payload)) (ty : string) :
  let t := exec inherited ops (new_DashboardTester Payload) in
  match fst (waitFor inherited ty t) with
  | Some id =>
      inherited ty = false
      /\ settled_with id (snd (waitFor inherited ty t))
         = find (has_type ty) (captured_by ops [])
  | None => inherited ty = true
  end.
Proof.
  intros t.
  pose proof (exec_captured ops (new_DashboardTester Payload)) as Hcap.
  cbn in Hcap. rewrite <- Hcap. fold t.
  assert (Ht : consistent inherited t) by apply exec_consistent, consistent_new.
  unfold waitFor. destruct (inherited ty) eqn:Hin.
  - rewrite (getOrCreate_inherited Ht Hin). reflexivity.
  - destruct (getOrCreate_spec Ht Hin)
      as [m [t' [-> [[Hentries _] [Hown Hsame]]]]].
    cbn [fst snd]. split; [reflexivity |].
    specialize (Hentries ty). rewrite Hown in Hentries.
    rewrite <- Hsame. tauto.
Qed.

Lemma resolve_promise_keeps id id' (a first : (PayloadAction Payload)) ps :
  nth id ps None = Some first ->
  nth id (resolve_promise id' a ps) None = Some first.
Proof.
  revert id id'. induction ps as [| p ps IH]; intros [| id] [| id'] H; cbn in *;
    try discriminate; subst; auto.
  - destruct p; cbn; auto.
  - destruct p; cbn; auto.
Qed.

Lemma getOrCreate_keeps_promises ty (t : Tester Payload) id :
  settled_with id (snd (getOrCreateMonitoredAction inherited ty t))
  = settled_with id t.
Proof.
  unfold getOrCreateMonitoredAction, read, settled_with.
  destruct (lookup ty (monitoredActions t)); [reflexivity |].
  destruct (inherited ty); [reflexivity |]. cbn. apply nth_app_pending.
Qed.

Lemma step_keeps_resolved (t : (Tester Payload)) (op : Op Payload) id first :
  settled_with id t = Some first ->
  settled_with id (step inherited t op) = Some first.
Proof.
  intros H. destruct op as [a | ty |]; cbn [step]; auto.
  - rewrite middleware_state.
    destruct (String.prefix "@@redux/" (type a)); auto.
    rewrite onActionCaptured_unfold. cbv zeta.
    rewrite <- (getOrCreate_keeps_promises (type a) t) in H.
    destruct (fst (getOrCreateMonitoredAction inherited (type a) t));
      cbn [snd]; unfold settled_with in *; cbn [promises]; auto.
    now apply resolve_promise_keeps.
  - rewrite waitFor_state. now rewrite getOrCreate_keeps_promises.
Qed.

(** X12: a monitored promise that is fulfilled keeps its action through
    every later operation: further actions of its type and resets do not
    change what it resolved with. *)
Theorem resolved_promise_is_final (ops : list (Op Payload)) (t : (Tester Payload)) id first :
  settled_with id t = Some first ->
  settled_with id (exec inherited ops t) = Some first.
Proof.
  revert t. induction ops as [| op ops IH]; intros t H; cbn; auto.
  apply IH. now apply step_keeps_resolved.
Qed.

Lemma step_keeps_unreferenced (t : (Tester Payload)) (op : Op Payload) id :
  unreferenced id t ->
  unreferenced id (step inherited t op)
  /\ settled_with id (step inherited t op) = settled_with id t.
Proof.
  intros [Hlt Hfree].
  assert (Hgoc : forall ty,
            let r := getOrCreateMonitoredAction inherited ty t in
            unreferenced id (snd r)
            /\ settled_with id (snd r) = settled_with id t
            /\ forall m, fst r = Some m ->
                         lookup ty (monitoredActions (snd r)) = Some m).
  { intros ty. cbv zeta. split; [| split; [apply getOrCreate_keeps_promises |]];
      unfold getOrCreateMonitoredAction, read;
      destruct (lookup ty (monitoredActions t)) as [m |] eqn:Hty;
      try (destruct (inherited ty)); cbn [fst snd];
      try (split; assumption); try congruence.
    - split; cbn [promises monitoredActions]; [rewrite length_app; cbn; lia |].
      intros ty' m'. destruct (String.eqb_spec ty' ty) as [-> | Hne].
      + rewrite lookup_assign_same. intros [= <-]. cbn. lia.
      + rewrite lookup_assign_other by assumption. eauto.
    - intros m [= <-]. cbn [monitoredActions]. apply lookup_assign_same. }
  destruct op as [a | ty |]; cbn [step].
  - rewrite middleware_state.
    destruct (String.prefix "@@redux/" (type a)); [repeat split; auto |].
    rewrite onActionCaptured_unfold. cbv zeta.
    destruct (Hgoc (type a)) as [[Hlt' Hfree'] [Hsame Hfound]].
    destruct (fst (getOrCreateMonitoredAction inherited (type a) t)) as [m |];
      cbn [snd].
    + specialize (Hfound m eq_refl).
      unfold unreferenced, settled_with in *.
      cbn [promises monitoredActions].
      rewrite resolve_promise_length. repeat split; [assumption | |].
      * intros ty' m'. destruct (String.eqb_spec ty' (type a)) as [-> | Hne].
        -- rewrite lookup_assign_same. intros [= <-]. cbn. eauto.
        -- rewrite lookup_assign_other by assumption. eauto.
      * rewrite resolve_promise_other; [exact Hsame |].
        intros Heq. symmetry in Heq. eapply Hfree'; eauto.
    + unfold unreferenced, settled_with in *. cbn [promises monitoredActions].
      repeat split; assumption.
  - rewrite waitFor_state. destruct (Hgoc ty) as [Hun [Hsame _]]. auto.
  - repeat split; auto. cbn. discriminate.
Qed.

Lemma exec_keeps_unreferenced (ops : list (Op Payload)) (t : (Tester Payload)) id :
  unreferenced id t ->
  settled_with id (exec inherited ops t) = settled_with id t.
Proof.
  revert t. induction ops as [| op ops IH]; intros t H; cbn; auto.
  destruct (step_keeps_unreferenced op H) as [H' Hsame].
  rewrite IH by assumption. exact Hsame.
Qed.

(** X13: a promise obtained from [waitFor] that is still pending when
    [resetMonitors] is called stays pending whatever happens afterwards: the
    actions captured after the reset fulfil new promises, so that wait can
    only end by its timeout. *)
Theorem promise_orphaned_by_reset (before after : list (Op Payload)) (ty : string)
    (id : nat) :
  let t := exec inherited before (new_DashboardTester Payload) in
  let waiting := waitFor inherited ty t in
  fst waiting = Some id ->
  settled_with id (snd waiting) = None ->
  settled_with id (exec inherited after (resetMonitors (snd waiting))) = None.
Proof.
  intros t waiting Hid Hpending.
  rewrite exec_keeps_unreferenced; [exact Hpending |].
  assert (Ht : consistent inherited t) by apply exec_consistent, consistent_new.
  subst waiting. unfold waitFor in *.
  destruct (inherited ty) eqn:Hin.
  - rewrite (getOrCreate_inherited Ht Hin) in Hid. discriminate Hid.
  - destruct (getOrCreate_spec Ht Hin)
      as [m [t' [Hgoc [[Hentries _] [Hown _]]]]].
    rewrite Hgoc in *. cbn [fst snd] in *. injection Hid as <-.
    specialize (Hentries ty). rewrite Hown in Hentries.
    split; cbn; [tauto | discriminate].
Qed.

End TesterFacts.

(** ** Overlay *)


Section OverlayFacts.
Import Overlay.

(** ** Align classes *)

Lemma split_no_space (a : string) :
  no_space a = true -> split " "%char a = [a].
Proof.
  induction a as [| ch a IH]; cbn; [reflexivity |].
  intros H. apply andb_prop in H as [Hch Ha].
  apply negb_true_iff in Hch. rewrite Hch, (IH Ha). reflexivity.
Qed.

Lemma split_at_first_space (a rest : string) :
  no_space a = true ->
  split " "%char (a ++ String " "%char rest)%string = a :: split " "%char rest.
Proof.
  induction a as [| ch a IH]; cbn; [reflexivity |].
  intros H. apply andb_prop in H as [Hch Ha].
  apply negb_true_iff in Hch. rewrite Hch, (IH Ha). reflexivity.
Qed.

Lemma split_cons (rest : string) :
  exists first others, split " "%char rest = first :: others.
Proof.
  induction rest as [| ch rest [first [others IH]]]; cbn; eauto.
  destruct (Ascii.eqb ch " "%char); eauto. rewrite IH. eauto.
Qed.

(** X14: for an alignment of two words separated by one space
    [getAlignClasses] gives "target-" with the first word and " self-" with
    the second, whatever follows a further space; for an alignment of a
    single word the second class reads "self-undefined". *)
Theorem align_classes (a b rest : string) :
  no_space a = true ->
  no_space b = true ->
  getAlignClasses (a ++ " " ++ b) = ("target-" ++ a ++ " self-" ++ b)%string
  /\ getAlignClasses (a ++ " " ++ b ++ " " ++ rest)
     = ("target-" ++ a ++ " self-" ++ b)%string
  /\ getAlignClasses a = ("target-" ++ a ++ " self-undefined")%string.
Proof.
  intros Ha Hb. unfold getAlignClasses. cbn [append].
  repeat split.
  - rewrite (@split_at_first_space a _ Ha), (@split_no_space b Hb). reflexivity.
  - rewrite (@split_at_first_space a _ Ha), (@split_at_first_space b _ Hb).
    reflexivity.
  - rewrite (@split_no_space a Ha). reflexivity.
Qed.

(** ** Child overlays *)

Section ChildOverlayFacts.

Variable Node : Type.
Variable same_node : Node -> Node -> bool.
Variable contains : Node -> Node -> bool.
Hypothesis same_node_spec : forall a b, same_node a b = true <-> a = b.

Lemma findIndex_bounds {A : Type} (array : list A) (predicate : A -> bool) :
  (-1 <= findIndex array predicate)%Z.
Proof.
  induction array as [| x array IH]; cbn; [lia |].
  destruct (predicate x); [lia |].
  destruct (Z.ltb_spec (findIndex array predicate) 0); lia.
Qed.

Lemma findIndex_first {A : Type} (before : list A) (x : A) (after : list A)
    (predicate : A -> bool) :
  (forall y, In y before -> predicate y = false) ->
  predicate x = true ->
  findIndex (before ++ x :: after) predicate = Z.of_nat (List.length before).
Proof.
  intros Hbefore Hx. induction before as [| y before IH]; cbn.
  - now rewrite Hx.
  - rewrite (Hbefore y) by now left.
    rewrite IH by (intros z Hz; apply Hbefore; now right).
    destruct (Z.ltb_spec (Z.of_nat (List.length before)) 0); lia.
Qed.

Lemma findIndex_none {A : Type} (array : list A) (predicate : A -> bool) :
  (forall y, In y array -> predicate y = false) ->
  findIndex array predicate = (-1)%Z.
Proof.
  intros Hnone. induction array as [| y array IH]; cbn; [reflexivity |].
  rewrite (Hnone y) by now left.
  rewrite IH by (intros z Hz; apply Hnone; now right). reflexivity.
Qed.

(** X15: when this overlay is among the overlay wrappers of the document,
    an element is in a child overlay exactly when an overlay after the first
    occurrence of this one contains it; this overlay and the earlier ones do
    not count. *)
Theorem child_overlays_are_the_later_ones
    (before after : list Node) (this_overlay element : Node) :
  ~ In this_overlay before ->
  isElementInChildOverlay same_node contains
    (before ++ this_overlay :: after) (Some this_overlay) element
  = existsb (fun overlay => contains overlay element) after.
Proof.
  intros Hfirst. unfold isElementInChildOverlay.
  rewrite findIndex_first.
  - unfold slice.
    destruct (Z.ltb_spec (Z.of_nat (List.length before) + 1) 0) as [Hneg | _];
      [lia |].
    replace (Z.to_nat (Z.of_nat (List.length before) + 1))
      with (List.length before + 1) by lia.
    replace (before ++ this_overlay :: after)
      with ((before ++ [this_overlay]) ++ after)
      by (rewrite <- app_assoc; reflexivity).
    rewrite skipn_app.
    rewrite skipn_all2 by (rewrite length_app; cbn; lia).
    rewrite length_app. cbn [List.length].
    replace (List.length before + 1 - (List.length before + 1)) with 0 by lia.
    reflexivity.
  - intros y Hy. destruct (same_node y this_overlay) eqn:E; [| reflexivity].
    apply same_node_spec in E. subst. contradiction.
  - now apply same_node_spec.
Qed.

(** X16: when this overlay is not among the overlay wrappers of the
    document, or its ref is [null], [findIndex] gives [-1] and every overlay
    of the document counts as a child overlay. *)
Theorem every_overlay_is_a_child_of_an_unlisted_one
    (overlays : list Node) (overlayRef_current : option Node) (element : Node) :
  (forall this_overlay, overlayRef_current = Some this_overlay ->
                        ~ In this_overlay overlays) ->
  isElementInChildOverlay same_node contains overlays overlayRef_current element
  = existsb (fun overlay => contains overlay element) overlays.
Proof.
  intros Hunlisted. unfold isElementInChildOverlay.
  rewrite findIndex_none; [reflexivity |].
  intros y Hy. destruct overlayRef_current as [this_overlay |]; [| reflexivity].
  destruct (same_node y this_overlay) eqn:E; [| reflexivity].
  apply same_node_spec in E. subst. exfalso. exact (Hunlisted _ eq_refl Hy).
Qed.

End ChildOverlayFacts.

(** ** Listeners *)

Lemma EventTarget_eqb_spec a b : EventTarget_eqb a b = true <-> a = b.
Proof. destruct a, b; cbn; split; congruence. Qed.

Lemma Callback_eqb_spec a b : Callback_eqb a b = true <-> a = b.
Proof.
  destruct a as [x | x], b as [y | y]; cbn; split; try congruence.
  - intros H. apply String.eqb_eq in H. congruence.
  - intros [= ->]. apply String.eqb_refl.
  - intros H. apply Nat.eqb_eq in H. congruence.
  - intros [= ->]. apply Nat.eqb_refl.
Qed.

Lemma Listener_eqb_spec a b : Listener_eqb a b = true <-> a = b.
Proof.
  unfold Listener_eqb. rewrite !andb_true_iff, EventTarget_eqb_spec,
    String.eqb_eq, Callback_eqb_spec.
  destruct a, b; cbn; split; [intros [[-> ->] ->]; reflexivity |].
  intros [= -> -> ->]. auto.
Qed.

Lemma In_addEventListener l l' registered :
  In l (addEventListener l' registered) <-> l = l' \/ In l registered.
Proof.
  unfold addEventListener.
  destruct (existsb (Listener_eqb l') registered) eqn:E.
  - split; [auto |]. intros [-> | H]; [| exact H].
    apply existsb_exists in E as [x [Hx Hxl]].
    apply Listener_eqb_spec in Hxl. now subst.
  - rewrite in_app_iff. cbn. intuition congruence.
Qed.

Lemma In_removeEventListener l l' registered :
  In l (removeEventListener l' registered) <-> l <> l' /\ In l registered.
Proof.
  unfold removeEventListener. rewrite filter_In, negb_true_iff.
  split.
  - intros [H Hne]. split; [| exact H]. intros ->.
    rewrite (proj2 (Listener_eqb_spec l' l') eq_refl) in Hne. discriminate.
  - intros [Hne H]. split; [exact H |].
    destruct (Listener_eqb l' l) eqn:E; [| reflexivity].
    apply Listener_eqb_spec in E. congruence.
Qed.

Lemma In_update_add table props registered l :
  In l (updateListeners_over table add props registered)
  <-> In l registered \/ asked_for table props l.
Proof.
  unfold updateListeners_over, asked_for.
  revert registered. induction table as [| event table IH]; intros registered; cbn.
  - split; [auto |]. intros [H | [ev [[] _]]]. exact H.
  - rewrite IH. destruct (wanted props event) eqn:W.
    + rewrite In_addEventListener. split.
      * intros [[-> | H] | [ev [Hev [Hw ->]]]]; eauto 8.
      * intros [H | [ev [[<- | Hev] [Hw ->]]]]; eauto 8.
    + split.
      * intros [H | [ev [Hev [Hw ->]]]]; eauto 8.
      * intros [H | [ev [[<- | Hev] [Hw ->]]]]; eauto 8. congruence.
Qed.

Lemma In_update_remove table props registered l :
  In l (updateListeners_over table remove props registered)
  <-> In l registered /\ ~ asked_for table props l.
Proof.
  unfold updateListeners_over, asked_for.
  revert registered. induction table as [| event table IH]; intros registered; cbn.
  - split; [intros H; split; [exact H | intros [ev [[] _]]] | tauto].
  - rewrite IH. destruct (wanted props event) eqn:W.
    + rewrite In_removeEventListener. split.
      * intros [[Hne H] Hno]. split; [exact H |].
        intros [ev [[<- | Hev] [Hw ->]]]; [congruence | eauto 8].
      * intros [H Hno]. repeat split; [| exact H |].
        -- intros ->. apply Hno. eauto 8.
        -- intros [ev [Hev [Hw ->]]]. apply Hno. eauto 8.
    + split.
      * intros [H Hno]. split; [exact H |].
        intros [ev [[<- | Hev] [Hw ->]]]; [congruence | eauto 8].
      * intros [H Hno]. split; [exact H |].
        intros [ev [Hev [Hw ->]]]. apply Hno. eauto 8.
Qed.

Lemma foreign_kept table method props registered :
  filter is_foreign (updateListeners_over table method props registered)
  = filter is_foreign registered.
Proof.
  unfold updateListeners_over.
  revert registered. induction table as [| event table IH]; intros registered; cbn;
    [reflexivity |].
  rewrite IH. destruct (wanted props event); [| reflexivity].
  destruct method.
  - unfold addEventListener.
    destruct (existsb _ registered); [reflexivity |].
    rewrite filter_app. cbn. apply app_nil_r.
  - unfold removeEventListener. induction registered as [| l registered IHr];
      cbn; [reflexivity |].
    destruct (Listener_eqb (listener_of event) l) eqn:E; cbn.
    + apply Listener_eqb_spec in E. subst l. cbn. exact IHr.
    + destruct (is_foreign l); cbn; [f_equal |]; exact IHr.
Qed.

Lemma addEventListener_cases l registered :
  addEventListener l registered = registered
  \/ addEventListener l registered = registered ++ [l].
Proof.
  unfold addEventListener. destruct (existsb _ registered); auto.
Qed.

Lemma add_appends table props registered :
  exists extra,
    updateListeners_over table add props registered = registered ++ extra
    /\ Forall (asked_for table props) extra.
Proof.
  unfold updateListeners_over.
  revert registered. induction table as [| event table IH]; intros registered; cbn.
  - exists []. split; [now rewrite app_nil_r | constructor].
  - assert (Hweaken : forall extra,
              Forall (asked_for table props) extra ->
              Forall (asked_for (event :: table) props) extra).
    { intros extra. apply Forall_impl. intros l [ev [Hev Hrest]].
      exists ev. split; [now right | exact Hrest]. }
    destruct (wanted props event) eqn:W.
    + destruct (addEventListener_cases (listener_of event) registered)
        as [-> | ->].
      * destruct (IH registered) as [extra [-> Hextra]]. eauto.
      * destruct (IH (registered ++ [listener_of event])) as [extra [-> Hextra]].
        exists (listener_of event :: extra). rewrite <- app_assoc. split; [reflexivity |].
        constructor; [| auto]. exists event. cbn. auto.
    + destruct (IH registered) as [extra [-> Hextra]]. eauto.
Qed.

Lemma remove_filters table props registered :
  updateListeners_over table remove props registered
  = filter (fun l => negb (existsb (fun event =>
                                      wanted props event
                                      && Listener_eqb (listener_of event) l)
                                   table))
           registered.
Proof.
  unfold updateListeners_over.
  revert registered. induction table as [| event table IH]; intros registered; cbn.
  - induction registered as [| l registered IHr]; cbn; congruence.
  - rewrite IH. destruct (wanted props event); cbn; [| reflexivity].
    unfold removeEventListener.
    induction registered as [| l registered IHr]; cbn; [reflexivity |].
    destruct (Listener_eqb (listener_of event) l); cbn; [exact IHr |].
    destruct (negb _); [f_equal |]; exact IHr.
Qed.

Lemma asked_for_dropped table props l :
  asked_for table props l ->
  negb (existsb (fun event =>
                   wanted props event && Listener_eqb (listener_of event) l)
                table) = false.
Proof.
  intros [event [Hev [Hw ->]]]. apply negb_false_iff, existsb_exists.
  exists event. split; [exact Hev |]. rewrite Hw. cbn.
  now apply Listener_eqb_spec.
Qed.

(** X17: [removeListeners] undoes [addListeners] for the same props: on a
    registry that holds none of this overlay's handlers, adding and then
    removing leaves the registry as it was, foreign listeners in place and
    in order. *)
Theorem add_then_remove_listeners (props : Props) (registered : list Listener) :
  (forall l, In l registered -> is_own l = false) ->
  removeListeners props (addListeners props registered) = registered.
Proof.
  intros Hforeign. unfold removeListeners, addListeners, updateListeners.
  destruct (add_appends events props registered) as [extra [-> Hextra]].
  rewrite remove_filters, filter_app.
  rewrite <- (app_nil_r registered) at 2. f_equal.
  - apply forallb_filter_id. apply forallb_forall. intros l Hl.
    apply negb_true_iff. apply not_true_iff_false. intros H.
    apply existsb_exists in H as [event [_ H]].
    apply andb_prop in H as [_ H]. apply Listener_eqb_spec in H. subst l.
    specialize (Hforeign _ Hl). discriminate.
  - induction Hextra as [| l extra Hl _ IH]; [reflexivity |].
    cbn [filter]. rewrite (asked_for_dropped Hl). exact IH.
Qed.

Lemma JsValue_eqb_eq a b : JsValue_eqb a b = true -> a = b.
Proof.
  destruct a, b; cbn; try congruence.
  - intros H. apply Bool.eqb_prop in H. congruence.
  - intros H. apply Nat.eqb_eq in H. congruence.
Qed.

Lemma same_event_props_wanted (p q : Props) event :
  plain p -> plain q ->
  same_event_props p q = true ->
  In event events ->
  wanted p event = wanted q event.
Proof.
  unfold plain, same_event_props. intros Hp Hq Hsame Hev.
  rewrite forallb_forall in Hsame.
  assert (Hkey : forall key, In key eventProps -> truthy (p key) = truthy (q key)).
  { intros key Hkey. specialize (Hsame key Hkey).
    destruct (p key) as [x |], (q key) as [y |]; try discriminate; auto.
    apply JsValue_eqb_eq in Hsame. congruence. }
  unfold wanted, prop. cbn in Hev.
  repeat destruct Hev as [<- | Hev]; try contradiction; cbn [handler requiredProp];
    rewrite ?Hp, ?Hq;
    repeat match goal with
           | |- context [truthy (p ?k)] =>
               rewrite (Hkey k) by (cbn; tauto)
           end; reflexivity.
Qed.

Lemma mount_in_step props registered :
  (forall l, In l registered -> is_own l = false) ->
  in_step props (addListeners props registered).
Proof.
  intros Hforeign l Hown. unfold addListeners, updateListeners.
  rewrite In_update_add. split; [| auto].
  intros [H | H]; [| exact H]. specialize (Hforeign _ H). congruence.
Qed.

Lemma receive_in_step p q registered :
  plain p -> plain q ->
  in_step p registered ->
  in_step q (componentWillReceiveProps p q registered).
Proof.
  intros Hp Hq Hstep l Hown. specialize (Hstep l Hown).
  unfold componentWillReceiveProps.
  destruct (same_event_props p q) eqn:Hsame; cbn [negb].
  - rewrite Hstep. unfold asked_for.
    split; intros [event [Hev [Hw ->]]]; exists event; repeat split; auto.
    + now rewrite <- (same_event_props_wanted Hp Hq Hsame Hev).
    + now rewrite (same_event_props_wanted Hp Hq Hsame Hev).
  - unfold addListeners, removeListeners, updateListeners.
    rewrite In_update_add, In_update_remove. tauto.
Qed.

(** X18: after mounting and any sequence of [componentWillReceiveProps]
    calls, the handlers of this overlay that are registered are exactly
    those that the latest props ask for, and the foreign listeners are
    untouched; this holds for props objects without a truthy property named
    "undefined", which is what [props[event.requiredProp]] reads for an
    entry without [requiredProp]. *)
Theorem listeners_follow_props (props : Props) (updates : list Props)
    (registered : list Listener) :
  (forall l, In l registered -> is_own l = false) ->
  Forall plain (props :: updates) ->
  let final := after_updates props updates (addListeners props registered) in
  (forall l, is_own l = true ->
             (In l final <-> asked_for events (last_props props updates) l))
  /\ filter is_foreign final = registered.
Proof.
  intros Hforeign Hplain final. subst final.
  assert (Hstart : in_step props (addListeners props registered))
    by now apply mount_in_step.
  assert (Hkeep : filter is_foreign (addListeners props registered) = registered).
  { unfold addListeners, updateListeners. rewrite foreign_kept.
    apply forallb_filter_id. apply forallb_forall. intros l Hl.
    unfold is_foreign. now rewrite (Hforeign l Hl). }
  revert Hstart Hkeep. generalize (addListeners props registered) as current.
  clear Hforeign. revert props Hplain.
  induction updates as [| q updates IH]; intros props Hplain current Hstart Hkeep.
  - cbn. split; assumption.
  - cbn [after_updates last_props].
    pose proof (Forall_inv Hplain) as Hp.
    pose proof (Forall_inv_tail Hplain) as Hrest.
    pose proof (Forall_inv Hrest) as Hq.
    apply IH; [assumption | now apply receive_in_step |].
    unfold componentWillReceiveProps.
    destruct (same_event_props props q); cbn [negb]; [assumption |].
    unfold addListeners, removeListeners, updateListeners.
    now rewrite !foreign_kept.
Qed.

End OverlayFacts.

(** ** Execute *)


Section ExecuteFacts.
Import Execute.

Context {env : Environment}.

(** X19: the status that the error handler reports is never missing: it
    is the bad-request state for the bad-request code, the too-large state
    for the too-large code (when the two codes differ), and the unknown
    state for every other code, for status 0, for an error without response
    and for no error at all. *)
Theorem error_status_is_known (error : option IError) :
  status_of error =
    Some (match errorCode error with
          | code n =>
              if Nat.eqb HTTP_BAD_REQUEST n then BAD_REQUEST
              else if Nat.eqb HTTP_TOO_LARGE n then DATA_TOO_LARGE_TO_COMPUTE
              else UNKNOWN_ERROR_STATE
          | UNKNOWN_ERROR => UNKNOWN_ERROR_STATE
          end)
  /\ status_of None = Some UNKNOWN_ERROR_STATE
  /\ status_of (Some {| response := None |}) = Some UNKNOWN_ERROR_STATE
  /\ status_of (Some {| response := Some 0 |}) = Some UNKNOWN_ERROR_STATE.
Proof.
  unfold status_of, statusMap. split; [| repeat split].
  - destruct (errorCode error) as [n |]; cbn; [| reflexivity].
    destruct (Nat.eqb HTTP_BAD_REQUEST n) eqn:Eb; cbn; rewrite ?Eb; cbn.
    + reflexivity.
    + destruct (Nat.eqb HTTP_TOO_LARGE n) eqn:Et; cbn; rewrite ?Eb, ?Et; reflexivity.
Qed.

Lemma last_announced_app (es es' : list Effect) sofar :
  last_announced (es ++ es') sofar = last_announced es' (last_announced es sofar).
Proof.
  revert sofar. induction es as [| e es IH]; intros sofar; cbn; [reflexivity |].
  destruct e; apply IH.
Qed.

Lemma happen_keeps_mirror (this : Instance) (h : Happening) :
  last_announced (effects this) None = Some (isLoading (this_state this)) ->
  last_announced
    (effects (happen this h)) None
  = Some (isLoading
            (this_state (happen this h))).
Proof.
  intros Hmirror. destruct h as [nextProps | result | error];
    cbn [happen].
  - unfold componentWillReceiveProps.
    destruct (hasPropsChanged this nextProps [prop_afm; prop_resultSpec]);
      cbn; [| exact Hmirror].
    now rewrite last_announced_app.
  - cbn. now rewrite last_announced_app.
  - cbn. now rewrite last_announced_app.
Qed.

(** X20: from mount on and through any sequence of props updates, data and
    errors, the [isLoading] of the component's state is the [isLoading] of
    the last [onLoadingChanged] call it made. *)
Theorem loading_state_mirrors_announcements (props : IExecuteProps)
    (hs : list Happening) :
  let this := life (mounted props) hs in
  last_announced (effects this) None = Some (isLoading (this_state this)).
Proof.
  intros this. subst this.
  assert (Hstart : last_announced (effects (mounted props)) None
                   = Some (isLoading (this_state (mounted props))))
    by reflexivity.
  revert Hstart. generalize (mounted props) as this.
  induction hs as [| h hs IH]; intros this Hmirror; cbn; [exact Hmirror |].
  apply IH. now apply happen_keeps_mirror.
Qed.


Lemma happen_executions (this : Instance) (h : Happening) :
  executions (happen this h)
  = executions this + executions_due (this_props this) [h].
Proof.
  unfold executions. destruct h as [nextProps | result | error]; cbn [happen].
  - unfold componentWillReceiveProps, hasPropsChanged, isPropChanged.
    cbn [existsb executions_due effects].
    rewrite orb_false_r.
    destruct (negb (afm_isEqual (afm nextProps) (afm (this_props this)))
              || negb (resultSpec_isEqual (resultSpec nextProps)
                         (resultSpec (this_props this)))); cbn.
    + rewrite filter_app, length_app. reflexivity.
    + lia.
  - cbn. rewrite filter_app, length_app. cbn. lia.
  - cbn. rewrite filter_app, length_app. cbn. lia.
Qed.

Lemma happen_props (this : Instance) (h : Happening) :
  this_props (happen this h)
  = match h with receives nextProps => nextProps | _ => this_props this end.
Proof. destruct h; reflexivity. Qed.

Lemma life_executions (this : Instance) (hs : list Happening) :
  executions (life this hs)
  = executions this + executions_due (this_props this) hs.
Proof.
  revert this. induction hs as [| h hs IH]; intros this; cbn [life].
  - cbn. lia.
  - rewrite IH, happen_executions, happen_props.
    destruct h; cbn [executions_due]; lia.
Qed.

(** X21: the component calls [getData] once at mount and once more for each
    props update whose AFM or result spec differs from the props then in
    force; arriving data, arriving errors and any other props change start
    no execution. *)
Theorem one_execution_per_relevant_change (props : IExecuteProps)
    (hs : list Happening) :
  executions (life (mounted props) hs) = 1 + executions_due props hs.
Proof.
  rewrite life_executions. reflexivity.
Qed.

Lemma happen_delivers (props : IExecuteProps) (this : Instance) (h : Happening) :
  constructed_with this = props ->
  Forall (delivered_to props) (effects this) ->
  constructed_with (happen this h) = props
  /\ Forall (delivered_to props) (effects (happen this h)).
Proof.
  intros Hwith Hsofar. destruct h as [nextProps | result | error]; cbn [happen].
  - unfold componentWillReceiveProps.
    destruct (hasPropsChanged this nextProps [prop_afm; prop_resultSpec]); cbn;
      [| auto].
    split; [assumption |]. apply Forall_app. split; [assumption |].
    repeat constructor.
  - cbn. split; [assumption |]. apply Forall_app. split; [assumption |].
    repeat constructor. cbn. congruence.
  - cbn. split; [assumption |]. apply Forall_app. split; [assumption |].
    repeat constructor; cbn; congruence.
Qed.

(** X22: every [onLoadingChanged({ isLoading: false })] and every [onError]
    of the component goes to the callbacks of the props it was constructed
    with, whatever props it has received since. *)
Theorem results_go_to_the_first_callbacks (props : IExecuteProps)
    (hs : list Happening) :
  Forall (delivered_to props) (effects (life (mounted props) hs)).
Proof.
  assert (Hstart : constructed_with (mounted props) = props
                   /\ Forall (delivered_to props) (effects (mounted props))).
  { split; [reflexivity |]. repeat constructor. }
  revert Hstart. generalize (mounted props) as this.
  induction hs as [| h hs IH]; intros this [Hwith Hsofar]; cbn [life];
    [exact Hsofar |].
  apply IH. now apply happen_delivers.
Qed.

End ExecuteFacts.

(** * Concrete runs of the further properties *)

Lemma plain_read_rejection_witness :
  be_execute (backend_reading (Rejected (NoDataError None))) the_execution
    = Fulfilled the_result
  /\ be_readWindow (backend_reading (Rejected (NoDataError None))) the_result
       (0, 0) (pageSize props_with_pushData, COLS_PER_PAGE)
     = Rejected (NoDataError None)
  /\ isUnexpectedResponseError (NoDataError None) = false
  /\ (if isNoDataError (NoDataError None)
      then error_dataView (NoDataError None) else None) = None
  /\ abandoned_when_readWindow_settles never = false
  /\ callbacks_after_settlement
       (log (snd (session (backend_reading (Rejected (NoDataError None))) never
                    the_execution the_config props_with_pushData)))
     = [config_onError "NO_DATA" the_execution].
Proof.
  repeat (split; [reflexivity |]).
  destruct (plain_read_rejection
              (backend_reading (Rejected (NoDataError None))) never
              the_execution the_config props_with_pushData
              (result := the_result) (reason := NoDataError None)
              eq_refl eq_refl eq_refl eq_refl eq_refl) as [_ [Hcallbacks _]].
  exact Hcallbacks.
Defined.

Lemma unexpected_response_with_props_pushData_witness :
  pushData props_with_pushData = Some the_handler
  /\ be_execute (backend_reading (Rejected UnexpectedResponseError)) the_execution
     = Fulfilled the_result
  /\ be_readWindow (backend_reading (Rejected UnexpectedResponseError)) the_result
       (0, 0) (pageSize props_with_pushData, COLS_PER_PAGE)
     = Rejected UnexpectedResponseError
  /\ abandoned_when_readWindow_settles never = false
  /\ callbacks_after_settlement
       (log (snd (session (backend_reading (Rejected UnexpectedResponseError))
                    never the_execution the_config props_with_pushData)))
     = [props_pushData the_handler
          {| dataView := None; availableDrillTargets := ("result", the_result) |};
        config_onError "UNEXPECTED_HTTP" the_execution].
Proof.
  repeat (split; [reflexivity |]).
  destruct (unexpected_response_with_props_pushData
              (backend_reading (Rejected UnexpectedResponseError)) never
              the_execution the_config props_with_pushData
              (result := the_result) (handler := the_handler)
              eq_refl eq_refl eq_refl eq_refl) as [_ [Hcallbacks _]].
  exact Hcallbacks.
Defined.

Lemma abandoned_while_reading_witness :
  be_execute (backend_reading (Fulfilled the_view)) the_execution
    = Fulfilled the_result
  /\ before_initialize abandon_while_reading = false
  /\ while_executing abandon_while_reading = false
  /\ while_reading abandon_while_reading = true
  /\ fst (session (backend_reading (Fulfilled the_view)) abandon_while_reading
            the_execution the_config props_with_pushData)
     = Fulfilled NONE.
Proof.
  repeat (split; [reflexivity |]).
  destruct (abandoned_while_reading
              (backend_reading (Fulfilled the_view)) abandon_while_reading
              the_execution the_config props_with_pushData
              (result := the_result) eq_refl eq_refl eq_refl eq_refl)
    as [Hvalue _].
  exact Hvalue.
Defined.

Lemma schedule_matters_through_flag_only_witness :
  abandoned_when_last_handler_runs (backend_reading (Fulfilled the_view))
    abandon_while_executing the_execution
  = abandoned_when_last_handler_runs (backend_reading (Fulfilled the_view))
      abandon_while_reading the_execution
  /\ callbacks (log (snd (session (backend_reading (Fulfilled the_view))
                            abandon_while_executing
                            the_execution the_config props_with_pushData)))
     = callbacks (log (snd (session (backend_reading (Fulfilled the_view))
                              abandon_while_reading
                              the_execution the_config props_with_pushData))).
Proof.
  split; [reflexivity |].
  destruct (schedule_matters_through_flag_only
              (backend_reading (Fulfilled the_view))
              abandon_while_executing abandon_while_reading
              the_execution the_config props_with_pushData eq_refl)
    as [_ [Hcallbacks _]].
  exact Hcallbacks.
Defined.

Lemma resolved_promise_is_final_witness :
  let t := DashboardTester.exec Inputs.Object_prototype
             [DashboardTester.Passes Inputs.first_load]
             (DashboardTester.new_DashboardTester nat) in
  DashboardTester.settled_with 0 t = Some Inputs.first_load
  /\ DashboardTester.settled_with 0
       (DashboardTester.exec Inputs.Object_prototype
          [DashboardTester.Passes Inputs.second_load; DashboardTester.Resets nat;
           DashboardTester.Passes Inputs.second_load] t)
     = Some Inputs.first_load.
Proof.
  intros t. split; [reflexivity |].
  apply resolved_promise_is_final. reflexivity.
Defined.

Lemma promise_orphaned_by_reset_witness :
  let waiting :=
    DashboardTester.waitFor Inputs.Object_prototype "GDC.DASH/CMD.LOAD"
      (DashboardTester.exec Inputs.Object_prototype []
         (DashboardTester.new_DashboardTester nat)) in
  fst waiting = Some 0
  /\ DashboardTester.settled_with 0 (snd waiting) = None
  /\ DashboardTester.settled_with 0
       (DashboardTester.exec Inputs.Object_prototype
          [DashboardTester.Passes Inputs.first_load]
          (DashboardTester.resetMonitors (snd waiting)))
     = None.
Proof.
  intros waiting. split; [reflexivity |]. split; [reflexivity |].
  exact (@promise_orphaned_by_reset nat Inputs.Object_prototype []
           [DashboardTester.Passes Inputs.first_load] "GDC.DASH/CMD.LOAD" 0
           eq_refl eq_refl).
Defined.

Lemma align_classes_witness :
  Overlay.no_space "bl" = true
  /\ Overlay.no_space "tl" = true
  /\ Overlay.getAlignClasses "bl tl" = "target-bl self-tl".
Proof.
  repeat (split; [reflexivity |]).
  exact (proj1 (@align_classes "bl" "tl" "" eq_refl eq_refl)).
Defined.

Lemma child_overlays_are_the_later_ones_witness :
  (forall a b, Nat.eqb a b = true <-> a = b)
  /\ ~ In 200 [100]
  /\ Overlay.isElementInChildOverlay Nat.eqb Inputs.toy_contains
       ([100] ++ 200 :: [300]) (Some 200) 305
     = true.
Proof.
  assert (Hfirst : ~ In 200 [100]) by (cbn; intros [H | []]; discriminate H).
  split; [exact Nat.eqb_eq |]. split; [exact Hfirst |].
  exact (@child_overlays_are_the_later_ones nat Nat.eqb Inputs.toy_contains
           Nat.eqb_eq [100] [300] 200 305 Hfirst).
Defined.

Lemma every_overlay_is_a_child_of_an_unlisted_one_witness :
  (forall a b, Nat.eqb a b = true <-> a = b)
  /\ (forall this_overlay, @None nat = Some this_overlay ->
                           ~ In this_overlay [100; 200])
  /\ Overlay.isElementInChildOverlay Nat.eqb Inputs.toy_contains
       [100; 200] None 105
     = true.
Proof.
  assert (Hunlisted : forall this_overlay, @None nat = Some this_overlay ->
                                           ~ In this_overlay [100; 200])
    by (intros this_overlay H; discriminate H).
  split; [exact Nat.eqb_eq |]. split; [exact Hunlisted |].
  exact (@every_overlay_is_a_child_of_an_unlisted_one nat Nat.eqb
           Inputs.toy_contains Nat.eqb_eq [100; 200] None 105 Hunlisted).
Defined.

Lemma add_then_remove_listeners_witness :
  (forall l, In l [Inputs.somebody_elses_listener] -> Overlay.is_own l = false)
  /\ Overlay.removeListeners Inputs.closing_on_outside_click
       (Overlay.addListeners Inputs.closing_on_outside_click
          [Inputs.somebody_elses_listener])
     = [Inputs.somebody_elses_listener].
Proof.
  assert (Hforeign : forall l, In l [Inputs.somebody_elses_listener] ->
                               Overlay.is_own l = false)
    by (intros l [<- | []]; reflexivity).
  split; [exact Hforeign |].
  exact (@add_then_remove_listeners Inputs.closing_on_outside_click
           [Inputs.somebody_elses_listener] Hforeign).
Defined.

Lemma listeners_follow_props_witness :
  (forall l, In l [Inputs.somebody_elses_listener] -> Overlay.is_own l = false)
  /\ Forall Overlay.plain
       [Inputs.closing_on_outside_click; Inputs.closing_on_escape]
  /\ filter Overlay.is_foreign
       (Overlay.after_updates Inputs.closing_on_outside_click
          [Inputs.closing_on_escape]
          (Overlay.addListeners Inputs.closing_on_outside_click
             [Inputs.somebody_elses_listener]))
     = [Inputs.somebody_elses_listener].
Proof.
  assert (Hforeign : forall l, In l [Inputs.somebody_elses_listener] ->
                               Overlay.is_own l = false)
    by (intros l [<- | []]; reflexivity).
  assert (Hplain : Forall Overlay.plain
                     [Inputs.closing_on_outside_click; Inputs.closing_on_escape])
    by (repeat constructor).
  split; [exact Hforeign |]. split; [exact Hplain |].
  exact (proj2 (@listeners_follow_props Inputs.closing_on_outside_click
                  [Inputs.closing_on_escape] [Inputs.somebody_elses_listener]
                  Hforeign Hplain)).
Defined.
